(** * Service lifecycle and process control of [services/serviceconfig.go]

    A shallow embedding of [ServiceConfig]'s lifecycle operations
    ([GetCommand], [Status], [Stop], [Build], [Launch], [Start]) and of the
    port / log introspection behind [Status].

    The operating system is external to the program.  It is modelled as an
    oracle [OS]: every library call the Go code makes is answered by a
    function of the interaction history so far, and every call is appended to
    that history together with its outcome.  Statements quantified over all
    [OS] values therefore hold for every behaviour the real system can show
    during one run.  The state the tool owns itself (pid records, run logs,
    the package-level connection cache) is kept concretely in [World]. *)

From Stdlib Require Import ZArith String Ascii List Bool Lia.
From stdpp Require Import base option list strings gmap.

Set Warnings "-register-all".

Local Open Scope string_scope.
Local Open Scope list_scope.
Local Open Scope Z_scope.

(** ** Go values *)

(** Go's [error] values.  [errors.New] builds a fresh error, library calls
    return their own, and [errors.WithStack] wraps a non-nil error. *)
Inductive error : Type :=
| errorsNew (msg : string)
| oserror (msg : string)
| WithStack (e : error).

(** A Go result pair [(v, err)]: [Ok v] when [err == nil]. *)
Inductive Result (A : Type) : Type :=
| Ok (a : A)
| Err (e : error).
Arguments Ok {A} a.
Arguments Err {A} e.

(** [errors.WithStack(err)] applied to a possibly nil error: nil stays nil. *)
Definition WithStackNil (err : option error) : option error :=
  match err with
  | Some e => Some (WithStack e)
  | None => None
  end.

(** The conversion [int32(x)] of a Go [int]: the low 32 bits, signed. *)
Definition int32 (x : Z) : Z := (x + 2 ^ 31) mod 2 ^ 32 - 2 ^ 31.

(** Arithmetic on Go's 64-bit [int] wraps around. *)
Definition int64 (x : Z) : Z := (x + 2 ^ 63) mod 2 ^ 64 - 2 ^ 63.

Definition digit_of (a : ascii) : option Z :=
  let n := Z.of_N (N_of_ascii a) in
  if (48 <=? n) && (n <=? 57) then Some (n - 48) else None.

Fixpoint parseDigits (s : string) (acc : Z) : option Z :=
  match s with
  | EmptyString => Some acc
  | String a s' =>
      match digit_of a with
      | Some d => parseDigits s' (10 * acc + d)
      | None => None
      end
  end.

Definition ErrSyntax : error := oserror "strconv.Atoi: invalid syntax".
Definition ErrRange : error := oserror "strconv.Atoi: value out of range".

Definition inRange64 (n : Z) : Result Z :=
  if (- 2 ^ 63 <=? n) && (n <? 2 ^ 63) then Ok n else Err ErrRange.

(** [strconv.Atoi]: an optional sign followed by at least one decimal digit,
    within the range of [int]. *)
Definition Atoi (s : string) : Result Z :=
  match s with
  | EmptyString => Err ErrSyntax
  | String a rest =>
      let signed := (Ascii.eqb a "-" || Ascii.eqb a "+")%char in
      let digits := if signed then rest else s in
      match digits with
      | EmptyString => Err ErrSyntax
      | _ =>
          match parseDigits digits 0 with
          | Some n => inRange64 (if Ascii.eqb a "-"%char then - n else n)
          | None => Err ErrSyntax
          end
      end
  end.

Definition digit_char (d : Z) : ascii := ascii_of_N (Z.to_N (48 + d)).

Fixpoint natDigits (fuel : nat) (n : Z) (acc : string) : string :=
  match fuel with
  | O => acc
  | S f =>
      let acc' := String (digit_char (n mod 10)) acc in
      if n <? 10 then acc' else natDigits f (n / 10) acc'
  end.

(** [strconv.Itoa]: the decimal text of an [int]. *)
Definition Itoa (n : Z) : string :=
  if n <? 0 then String "-"%char (natDigits 20 (- n) "") else natDigits 20 n "".

(** [strings.Contains(s, substr)]. *)
Fixpoint Contains (s substr : string) : bool :=
  String.prefix substr s ||
  match s with
  | EmptyString => false
  | String _ s' => Contains s' substr
  end.

(** ** The data the service code works on *)

Record LaunchChecksT : Type := mkLaunchChecks {
  LogText : string;
  Ports : list Z
}.

(** [ServiceConfig], with the fields the lifecycle code reads
    ([LaunchChecks] is a pointer: [None] is nil). *)
Record ServiceConfig : Type := mkServiceConfig {
  Name : string;
  RequiresSudo : bool;
  LaunchChecks : option LaunchChecksT
}.

(** [OperationConfig] is declared outside this file; the lifecycle code only
    asks it whether a service is excluded from the current operation. *)
Record OperationConfig : Type := mkOperationConfig {
  IsExcluded : ServiceConfig -> bool
}.

(** A [*process.Process] handle: its pid and what [Children()] answers for
    it.  [Children()] fails for a process that has exited or has no children.
    An operating-system process tree has no cycles, so the answers form a
    finite tree. *)
Inductive Process : Type :=
| mkProcess (Pid : Z) (children : Result (list Process)).

Definition procPid (p : Process) : Z :=
  match p with mkProcess pid _ => pid end.

Definition Children (p : Process) : Result (list Process) :=
  match p with mkProcess _ ch => ch end.

(** [net.ConnectionStat], with the fields port discovery reads. *)
Record ConnectionStat : Type := mkConnectionStat {
  connStatus : string;
  connPid : Z;
  LaddrPort : Z
}.

(** [ServiceCommand] is declared outside this file; the lifecycle code reads
    and resets its [Pid]. *)
Record ServiceCommand : Type := mkServiceCommand {
  Service : ServiceConfig;
  Pid : Z
}.

Inductive StatusKind : Type := StatusStopped | StatusRunning.

Record ServiceStatus : Type := mkServiceStatus {
  stService : ServiceConfig;
  stStatus : StatusKind;
  stPid : Z;
  stStartTime : Z;
  stPorts : list string;
  StdoutCount : Z;
  StderrCount : Z
}.

(** ** Interaction with the operating system *)

Inductive Signal : Type := SIGINT | SIGKILL.

Inductive Call : Type :=
| CallPidExists (pid : Z)
| CallNewProcess (pid : Z)
| CallCmdline (pid : Z)
| CallCreateTime (pid : Z)
| CallSendSignal (pid : Z) (sig : Signal)
| CallGetpgid (pid : Z)
| CallKillGroup (pgid : Z)
| CallConnections
| CallSleep (d : Z)
| CallRemove (path : string).

(** One entry of the interaction history: the call and the error it returned,
    if any. *)
Record Event : Type := mkEvent {
  evCall : Call;
  evErr : option error
}.

(** The history is kept newest first. *)
Definition History : Type := list Event.

Record OS : Type := mkOS {
  osPidExists : History -> Z -> Result bool;
  osNewProcess : History -> Z -> Result Process;
  osCmdline : History -> Z -> Result string;
  osCreateTime : History -> Z -> Result Z;
  osSendSignal : History -> Z -> Signal -> option error;
  osGetpgid : History -> Z -> Result Z;
  osKillGroup : History -> Z -> option error;
  (* [net.Connections] returns a table and an error; Go assigns both *)
  osConnections : History -> list ConnectionStat * option error;
  (* [json.Unmarshal(text, &lineData)] on [struct{ Stream string }]: the
     value of [Stream] afterwards, and the error *)
  jsonUnmarshal : string -> string -> string * option error
}.

(** [home.EdwardConfig]: the directories the tool keeps its files in. *)
Record EdwardConfig : Type := mkEdwardConfig {
  LogDir : string;
  PidDir : string
}.

(** What the tool itself owns: the pid records and run logs on disk (a pid
    record that exists but cannot be read holds [Err]; a run log is the
    sequence of lines its scanner yields), the package-level
    [connectionsCache], and the history of calls made so far. *)
Record World : Type := mkWorld {
  home : EdwardConfig;
  pidfiles : gmap string (Result string);
  logfiles : gmap string (list string);
  connectionsCache : list ConnectionStat;
  trace : History
}.

Definition M (A : Type) : Type := World -> A * World.

Definition ret {A} (a : A) : M A := fun w => (a, w).

Definition bind {A B} (m : M A) (k : A -> M B) : M B :=
  fun w => let '(a, w') := m w in k a w'.

(** [v, err := f(); if err != nil { return nil, errors.WithStack(err) }]. *)
Definition try {A B} (m : M (Result A)) (k : A -> M (Result B)) : M (Result B) :=
  fun w =>
    match m w with
    | (Ok a, w') => k a w'
    | (Err e, w') => (Err (WithStack e), w')
    end.

Notation "x <- m ;; k" := (bind m (fun x => k))
  (at level 100, m at next level, right associativity).
Notation "x <-? m ;; k" := (try m (fun x => k))
  (at level 100, m at next level, right associativity).

Definition resultErr {A} (r : Result A) : option error :=
  match r with
  | Ok _ => None
  | Err e => Some e
  end.

Definition record (c : Call) (err : option error) : M unit :=
  fun w => (tt, mkWorld (home w) (pidfiles w) (logfiles w) (connectionsCache w)
                        (mkEvent c err :: trace w)).

(** A library call with a result pair. *)
Definition oscall {A} (c : Call) (answer : History -> Result A) : M (Result A) :=
  fun w => let r := answer (trace w) in
           (r, snd (record c (resultErr r) w)).

(** A library call that returns only an error. *)
Definition oscallErr (c : Call) (answer : History -> option error) : M (option error) :=
  fun w => let r := answer (trace w) in
           (r, snd (record c r w)).

(** ** The library calls of the lifecycle code *)

Definition PidExists (os : OS) (pid : Z) : M (Result bool) :=
  oscall (CallPidExists pid) (fun h => osPidExists os h pid).

Definition NewProcess (os : OS) (pid : Z) : M (Result Process) :=
  oscall (CallNewProcess pid) (fun h => osNewProcess os h pid).

Definition Cmdline (os : OS) (p : Process) : M (Result string) :=
  oscall (CallCmdline (procPid p)) (fun h => osCmdline os h (procPid p)).

Definition CreateTime (os : OS) (p : Process) : M (Result Z) :=
  oscall (CallCreateTime (procPid p)) (fun h => osCreateTime os h (procPid p)).

Definition SendSignal (os : OS) (p : Process) (sig : Signal) : M (option error) :=
  oscallErr (CallSendSignal (procPid p) sig)
            (fun h => osSendSignal os h (procPid p) sig).

Definition Getpgid (os : OS) (pid : Z) : M (Result Z) :=
  oscall (CallGetpgid pid) (fun h => osGetpgid os h pid).

Definition Sleep (d : Z) : M unit := record (CallSleep d) None.

(** [path.Join(dir, file)] for a plain file name. *)
Definition pathJoin (dir file : string) : string := dir +:+ "/" +:+ file.

(** [ioutil.ReadFile] of a pid record that [os.Stat] found. *)
Definition ReadFile (path : string) : M (Result string) :=
  fun w =>
    match pidfiles w !! path with
    | Some r => (r, w)
    | None => (Err (oserror "open: no such file or directory"), w)
    end.

(** Modelled from the spec: [ServiceCommand.getPidPath] is declared outside
    this file.  "One process-identifier record per service, keyed by service
    name, stored at a well-known per-tool directory." *)
Definition getPidPath (command : ServiceCommand) : M string :=
  fun w => (pathJoin (PidDir (home w)) (Name (Service command) +:+ ".pid"), w).

(** Modelled from the spec: [ServiceCommand.clearState] is declared outside
    this file.  It clears the persisted identity: the pid becomes the
    zero/unset value and the service's pid record is deleted.  The outcome
    of the removal is discarded. *)
Definition clearState (command : ServiceCommand) : M ServiceCommand :=
  pidFile <- getPidPath command ;;
  fun w =>
    (mkServiceCommand (Service command) 0,
     mkWorld (home w) (delete pidFile (pidfiles w)) (logfiles w)
             (connectionsCache w) (mkEvent (CallRemove pidFile) None :: trace w)).

(** Modelled from the spec: [KillGroup] is declared outside this file.  It
    sends "a forceful termination signal to the entire process group". *)
Definition KillGroup (os : OS) (cfg : OperationConfig) (pgid : Z)
    (c : ServiceConfig) : M (option error) :=
  oscallErr (CallKillGroup pgid) (fun h => osKillGroup os h pgid).

(** ** [GetCommand]: loading and re-validating the persisted identity *)

Definition GetCommand (os : OS) (c : ServiceConfig) : M (Result ServiceCommand) :=
  let command := mkServiceCommand c 0 in
  pidFile <- getPidPath command ;;
  fun w =>
    match pidfiles w !! pidFile with
    | Some _ =>
        (dat <-? ReadFile pidFile ;;
         pid <-? ret (Atoi dat) ;;
         let command := mkServiceCommand c pid in
         exists_ <-? PidExists os (int32 (Pid command)) ;;
         command <- (if negb exists_ then clearState command else ret command) ;;
         proc <-? NewProcess os (int32 (Pid command)) ;;
         cmdline <-? Cmdline os proc ;;
         command <- (if negb (Contains cmdline (Name c))
                     then clearState command else ret command) ;;
         ret (Ok command)) w
    | None => (Ok command, w)
    end.

(** ** Port discovery *)

(** [connectionsCache, err = net.Connections("all")], done only while the
    cache is empty. *)
Definition fetchConnections (os : OS) : M (option error) :=
  fun w =>
    if (length (connectionsCache w) =? 0)%nat then
      let '(table, err) := osConnections os (trace w) in
      (err, mkWorld (home w) (pidfiles w) (logfiles w) table
                    (mkEvent CallConnections err :: trace w))
    else (None, w).

(** [knownPorts]: the declared launch-check ports, as a set. *)
Definition knownPorts (c : ServiceConfig) : gset Z :=
  match LaunchChecks c with
  | Some lc => list_to_set (Ports lc)
  | None => ∅
  end.

(** The loop of [doGetPorts] over the connection table. *)
Fixpoint ownPorts (known : gset Z) (pid : Z) (table : list ConnectionStat)
    (ports : list string) : list string :=
  match table with
  | [] => ports
  | connection :: rest =>
      let ports :=
        if String.eqb (connStatus connection) "LISTEN" then
          if Z.eqb (connPid connection) pid
             && negb (bool_decide (LaddrPort connection ∈ known))
          then ports ++ [Itoa (LaddrPort connection)]
          else ports
        else ports in
      ownPorts known pid rest ports
  end.

(** The loop of [doGetPorts] over the children: the ports of a child whose
    discovery failed are left out. *)
Definition forEachChild (discover : Process -> World -> Result (list string) * World)
    : list Process -> list string -> World -> Result (list string) * World :=
  fix each (children : list Process) (ports : list string) (w : World) :=
    match children with
    | [] => (Ok ports, w)
    | child :: rest =>
        match discover child w with
        | (Ok childPorts, w') => each rest (ports ++ childPorts) w'
        | (Err _, w') => each rest ports w'
        end
    end.

Fixpoint doGetPorts (os : OS) (c : ServiceConfig) (proc : Process) (w : World)
    {struct proc} : Result (list string) * World :=
  match fetchConnections os w with
  | (Some e, w1) => (Err (WithStack e), w1)
  | (None, w1) =>
      let ports := ownPorts (knownPorts c) (procPid proc) (connectionsCache w1) [] in
      match proc with
      | mkProcess _ (Err _) => (Ok ports, w1)
      | mkProcess _ (Ok children) =>
          forEachChild (doGetPorts os c) children ports w1
      end
  end.

Definition declaredPorts (c : ServiceConfig) : list string :=
  match LaunchChecks c with
  | Some lc => map Itoa (Ports lc)
  | None => []
  end.

Definition getPorts (os : OS) (c : ServiceConfig) (proc : Process) : M (Result (list string)) :=
  ports <-? doGetPorts os c proc ;;
  ret (Ok (ports ++ declaredPorts c)).

(** ** Log line counts *)

Definition GetRunLog (c : ServiceConfig) : M string :=
  fun w => (pathJoin (LogDir (home w)) (Name c +:+ ".log"), w).

(** The body of the scanner loop of [getLogCounts], on the loop's state
    [(stdoutCount, stderrCount, lineData)]; [lineData] is declared outside
    the loop and keeps its value from one line to the next. *)
Definition countLine (os : OS) (st : Z * Z * string) (text : string) : Z * Z * string :=
  let '(stdoutCount, stderrCount, lineData) := st in
  let '(lineData, err) := jsonUnmarshal os text lineData in
  match err with
  | Some _ => (stdoutCount, stderrCount, lineData)
  | None =>
      let stdoutCount :=
        if String.eqb lineData "stdout" then int64 (stdoutCount + 1)
        else stdoutCount in
      let stderrCount :=
        if String.eqb lineData "stderr" then int64 (stderrCount + 1)
        else stderrCount in
      (stdoutCount, stderrCount, lineData)
  end.

Definition getLogCounts (os : OS) (c : ServiceConfig) : M (Z * Z) :=
  logPath <- GetRunLog c ;;
  fun w =>
    match logfiles w !! logPath with
    | None => ((0, 0), w)
    | Some lines =>
        let '(stdoutCount, stderrCount, _) :=
          fold_left (countLine os) lines (0, 0, "") in
        ((stdoutCount, stderrCount), w)
    end.

(** ** [Status] *)

Definition Status (os : OS) (c : ServiceConfig) : M (Result (list ServiceStatus)) :=
  command <-? GetCommand os c ;;
  let status := mkServiceStatus c StatusStopped 0 0 [] 0 0 in
  if negb (Pid command =? 0) then
    proc <-? NewProcess os (int32 (Pid command)) ;;
    epochStart <-? CreateTime os proc ;;
    ports <- getPorts os c proc ;;
    counts <- getLogCounts os c ;;
    match ports with
    | Err e => ret (Err (WithStack e))
    | Ok ports =>
        ret (Ok [mkServiceStatus c StatusRunning (Pid command)
                   (Z.quot epochStart 1000) ports (fst counts) (snd counts)])
    end
  else ret (Ok [status]).

(** ** [Stop]: the termination protocol *)

(** What [Stop] tells its [CommandTracker] last. *)
Inductive Outcome : Type :=
| TrackSuccess
| TrackSoftFail (e : error)
| TrackFail (e : error).

Definition interruptProcess (os : OS) (cfg : OperationConfig)
    (command : ServiceCommand) : M (Result bool) :=
  p <-? NewProcess os (int32 (Pid command)) ;;
  err <- SendSignal os p SIGINT ;;
  match err with
  | Some e => ret (Err (WithStack e))
  | None =>
      (* Check to see if the process is still running *)
      exists_ <-? PidExists os (int32 (Pid command)) ;;
      ret (Ok (negb exists_))
  end.

(** [killProcess] returns both a flag and an error: after [KillGroup] it
    answers [true] together with whatever [KillGroup] returned. *)
Definition killProcess (os : OS) (cfg : OperationConfig) (c : ServiceConfig)
    (command : ServiceCommand) : M (bool * option error) :=
  r <- Getpgid os (Pid command) ;;
  match r with
  | Err e => ret (false, Some (WithStack e))
  | Ok pgid =>
      if (pgid =? 0) || (pgid =? 1) then
        ret (false, Some (WithStack (errorsNew ("suspect pgid: " +:+ Itoa pgid))))
      else
        err <- KillGroup os cfg pgid c ;;
        ret (true, WithStackNil err)
  end.

(** [time.Duration] counts nanoseconds. *)
Definition Millisecond : Z := 1000000.
Definition Second : Z := 1000 * Millisecond.

(** The number of values [0, 100ms, 200ms, ...] that are [<= timeout]. *)
Definition pollCount (timeout : Z) : nat :=
  if timeout <? 0 then O else Z.to_nat (timeout / (100 * Millisecond) + 1).

(** The loop of [waitForTerm].  [fuel] bounds the number of rounds; with
    [pollCount timeout] rounds the loop condition is false when it runs out
    (lemma [pollCount_exit]). *)
Fixpoint waitLoop (os : OS) (command : ServiceCommand) (timeout : Z)
    (fuel : nat) (elapsed : Z) : M (Result bool) :=
  match fuel with
  | O => ret (Ok false)
  | S fuel' =>
      if elapsed <=? timeout then
        exists_ <-? PidExists os (int32 (Pid command)) ;;
        if negb exists_ then ret (Ok true)
        else
          _ <- Sleep (100 * Millisecond) ;;
          waitLoop os command timeout fuel' (elapsed + 100 * Millisecond)
      else ret (Ok false)
  end.

Definition waitForTerm (os : OS) (command : ServiceCommand) (timeout : Z) : M (Result bool) :=
  waitLoop os command timeout (pollCount timeout) 0.

(** The common tail of [Stop]: remove leftover files, report success. *)
Definition stopSucceeded (command : ServiceCommand) : M (option error * option Outcome) :=
  _ <- clearState command ;;
  ret (None, Some TrackSuccess).

(** [Stop] returns the error handed to its caller and the last report made
    to the tracker ([None] when no report was made). *)
Definition Stop (os : OS) (cfg : OperationConfig) (c : ServiceConfig)
    : M (option error * option Outcome) :=
  if IsExcluded cfg c then ret (None, None)
  else
    r <- GetCommand os c ;;
    match r with
    | Err e => ret (Some (WithStack e), None)
    | Ok command =>
        if Pid command =? 0 then
          ret (None, Some (TrackSoftFail (errorsNew "Not running")))
        else
          r <- interruptProcess os cfg command ;;
          match r with
          | Err e => ret (None, Some (TrackFail e))
          | Ok stopped =>
              if negb stopped then
                r <- waitForTerm os command (Second * 5) ;;
                match r with
                | Err e => ret (None, Some (TrackFail e))
                | Ok stopped =>
                    if negb stopped then
                      r <- killProcess os cfg c command ;;
                      match r with
                      | (_, Some e) => ret (None, Some (TrackFail e))
                      | (stopped, None) =>
                          if stopped then
                            ret (None, Some (TrackSoftFail (errorsNew "Killed")))
                          else
                            ret (None, Some (TrackFail (errorsNew "Process was not killed")))
                      end
                    else stopSucceeded command
                end
              else stopSucceeded command
          end
    end.

(** ** [Build], [Launch], [Start] *)

(** [ServiceCommand.BuildSync] and [ServiceCommand.StartAsync] are declared
    outside this file; they run the build command and spawn the service. *)
Record CommandOps : Type := mkCommandOps {
  BuildSync : ServiceCommand -> bool -> M (option error);
  StartAsync : ServiceCommand -> OperationConfig -> M (option error)
}.

Definition Build (os : OS) (ops : CommandOps) (cfg : OperationConfig)
    (c : ServiceConfig) : M (option error) :=
  if IsExcluded cfg c then ret None
  else
    r <- GetCommand os c ;;
    match r with
    | Err e => ret (Some (WithStack e))
    | Ok command =>
        err <- BuildSync ops command false ;;
        ret (WithStackNil err)
    end.

Definition Launch (os : OS) (ops : CommandOps) (cfg : OperationConfig)
    (c : ServiceConfig) : M (option error) :=
  if IsExcluded cfg c then ret None
  else
    r <- GetCommand os c ;;
    match r with
    | Err e => ret (Some (WithStack e))
    | Ok command =>
        err <- StartAsync ops command cfg ;;
        ret (WithStackNil err)
    end.

Definition Start (os : OS) (ops : CommandOps) (cfg : OperationConfig)
    (c : ServiceConfig) : M (option error) :=
  if IsExcluded cfg c then ret None
  else
    err <- Build os ops cfg c ;;
    match err with
    | Some e => ret (Some (WithStack e))
    | None =>
        err <- Launch os ops cfg c ;;
        ret (WithStackNil err)
    end.

(** ** Observations on the interaction history *)

(** A signal of any kind was sent by the call. *)
Definition isSignal (ev : Event) : bool :=
  match evCall ev with
  | CallSendSignal _ _ | CallKillGroup _ => true
  | _ => false
  end.

(** A forceful termination signal. *)
Definition isForceful (ev : Event) : bool :=
  match evCall ev with
  | CallSendSignal _ SIGKILL | CallKillGroup _ => true
  | _ => false
  end.

(** A fetch of the system-wide connection table. *)
Definition isFetch (ev : Event) : bool :=
  match evCall ev with
  | CallConnections => true
  | _ => false
  end.

(** A write to persisted state. *)
Definition isWrite (ev : Event) : bool :=
  match evCall ev with
  | CallRemove _ => true
  | _ => false
  end.

Definition signalsSent (h : History) : list Call := map evCall (List.filter isSignal h).
Definition forcefulSent (h : History) : list Call := map evCall (List.filter isForceful h).
Definition fetches (h : History) : list Event := List.filter isFetch h.

(** [h'] is [h] followed by calls that all satisfy [P]. *)
Definition hext (P : Event -> Prop) (h h' : History) : Prop :=
  exists evs, h' = evs ++ h /\ Forall P evs.

(** [w'] is reached from [w] by calls that all satisfy [P]. *)
Definition extends (P : Event -> Prop) (w w' : World) : Prop :=
  hext P (trace w) (trace w').

(** The pids of a process and of every descendant [Children()] lists. *)
Fixpoint treePids (p : Process) : list Z :=
  match p with
  | mkProcess pid (Ok cs) => pid :: flat_map treePids cs
  | mkProcess pid (Err _) => [pid]
  end.

(** The table has a socket in LISTEN state owned by [pid] on [port]. *)
Definition listening (table : list ConnectionStat) (pid port : Z) : Prop :=
  exists conn, In conn table /\ connStatus conn = "LISTEN" /\
               connPid conn = pid /\ LaddrPort conn = port.

(** The declared launch-check ports. *)
Definition declared (c : ServiceConfig) : list Z :=
  match LaunchChecks c with
  | Some lc => Ports lc
  | None => []
  end.



(** ** Vocabulary of the statements *)

(** The calls a [GetCommand] makes: it probes processes and may remove the
    pid record; it sends nothing and does not touch the connection table. *)
Definition quiet (ev : Event) : Prop := isSignal ev = false /\ isFetch ev = false.

(** Calls that only look at processes or pass time, or send an interrupt. *)
Definition gentle (ev : Event) : Prop :=
  isForceful ev = false /\ isFetch ev = false /\ isWrite ev = false.

(** Calls that succeeded. *)
Definition succeeded (ev : Event) : Prop := evErr ev = None.

(** The parts of the world a step leaves alone. *)
Definition frame (w w' : World) : Prop :=
  home w' = home w /\ pidfiles w' = pidfiles w /\ logfiles w' = logfiles w /\
  connectionsCache w' = connectionsCache w.

(** Every call made between [h] and [h'] succeeded. *)
Definition wentWell (P : Event -> Prop) (h h' : History) : Prop :=
  hext (fun ev => P ev /\ succeeded ev) h h'.

(** The last call made failed with [e]; the calls before it succeeded. *)
Definition failedAt (P : Event -> Prop) (e : error) (h h' : History) : Prop :=
  exists call h0, h' = mkEvent call (Some e) :: h0 /\
                  P (mkEvent call (Some e)) /\ wentWell P h h0.

(** How a step that returns a result pair ends. *)
Definition stepShape {A} (P : Event -> Prop) (r : Result A) (h h' : History) : Prop :=
  match r with
  | Ok _ => wentWell P h h'
  | Err x => exists e, x = WithStack e /\ failedAt P e h h'
  end.

Definition anyCall (ev : Event) : Prop := True.

(** How the termination steps of a [Stop] end: every call succeeded, or
    the last call made failed and that failure is what the tracker was told. *)
Definition stopShape (res : option error * option Outcome) (h h' : History) : Prop :=
  wentWell anyCall h h' \/
  exists e, failedAt anyCall e h h' /\ res = (None, Some (TrackFail (WithStack e))).

Definition stoppedStatus (c : ServiceConfig) : ServiceStatus :=
  mkServiceStatus c StatusStopped 0 0 [] 0 0.


Definition runningStatus (os : OS) (c : ServiceConfig) (command : ServiceCommand)
    (epochStart : Z) (ports : list string) (w : World) : ServiceStatus :=
  mkServiceStatus c StatusRunning (Pid command) (Z.quot epochStart 1000) ports
    (fst (fst (getLogCounts os c w))) (snd (fst (getLogCounts os c w))).

(** ** A small simulated system, for concrete runs *)

Record ProcInfo : Type := mkProcInfo {
  piPid : Z;
  piCmdline : string;
  piCreateTime : Z;
  piPgid : Z;
  (* the process does not exit on an interrupt *)
  piIgnoresInterrupt : bool;
  (* the process belongs to another user: signalling it is not permitted *)
  piForeign : bool;
  piTree : Process
}.

Definition findProc (procs : list ProcInfo) (pid : Z) : option ProcInfo :=
  find (fun p => piPid p =? pid) procs.

(** A process is gone once it was sent an interrupt it honours, or once its
    process group was killed. *)
Definition gone (h : History) (p : ProcInfo) : bool :=
  existsb (fun ev =>
             match evCall ev, evErr ev with
             | CallSendSignal pid SIGINT, None =>
                 (pid =? piPid p) && negb (piIgnoresInterrupt p)
             | CallKillGroup pgid, None => pgid =? piPgid p
             | _, _ => false
             end) h.

Definition alive (procs : list ProcInfo) (h : History) (pid : Z) : option ProcInfo :=
  match findProc procs pid with
  | Some p => if gone h p then None else Some p
  | None => None
  end.

Definition ESRCH : error := oserror "no such process".
Definition EPERM : error := oserror "operation not permitted".
Definition SyntaxError : error := oserror "invalid character".

Definition lookupProc {A} (procs : list ProcInfo) (h : History) (pid : Z)
    (f : ProcInfo -> A) : Result A :=
  match alive procs h pid with
  | Some p => Ok (f p)
  | None => Err ESRCH
  end.

Definition quoteChar : ascii := "034"%char.
Definition quoted (s : string) : string :=
  String quoteChar (s +:+ String quoteChar "").

(** The text up to the next double quote, and what follows it. *)
Fixpoint untilQuote (s : string) : option (string * string) :=
  match s with
  | EmptyString => None
  | String a s' =>
      if Ascii.eqb a quoteChar then Some ("", s')
      else match untilQuote s' with
           | Some (v, r) => Some (String a v, r)
           | None => None
           end
  end.

Fixpoint dropChars (n : nat) (s : string) : string :=
  match n, s with
  | S n', String _ s' => dropChars n' s'
  | _, _ => s
  end.

(** A decoder for the two shapes of line the run log holds: the empty
    object, and an object with the single member [Stream]. *)
Definition sampleUnmarshal (text lineData : string) : string * option error :=
  let key := "{" +:+ quoted "Stream" +:+ ":" +:+ String quoteChar "" in
  if String.eqb text "{}" then (lineData, None)
  else if String.prefix key text then
    match untilQuote (dropChars (String.length key) text) with
    | Some (v, rest) =>
        if String.eqb rest "}" then (v, None) else (lineData, Some SyntaxError)
    | None => (lineData, Some SyntaxError)
    end
  else (lineData, Some SyntaxError).

Definition simOS (procs : list ProcInfo) (table : list ConnectionStat) : OS :=
  {| osPidExists h pid :=
       Ok (match alive procs h pid with Some _ => true | None => false end);
     osNewProcess h pid := lookupProc procs h pid piTree;
     osCmdline h pid := lookupProc procs h pid piCmdline;
     osCreateTime h pid := lookupProc procs h pid piCreateTime;
     osSendSignal h pid sig :=
       match alive procs h pid with
       | Some p => if piForeign p then Some EPERM else None
       | None => Some ESRCH
       end;
     osGetpgid h pid := lookupProc procs h pid piPgid;
     osKillGroup h pgid := None;
     osConnections h := (table, None);
     jsonUnmarshal := sampleUnmarshal |}.

Definition sampleHome : EdwardConfig :=
  mkEdwardConfig "/home/dev/.edward/logs" "/home/dev/.edward/pids".

Definition apiPidFile : string := "/home/dev/.edward/pids/api.pid".
Definition apiLogFile : string := "/home/dev/.edward/logs/api.log".

(** The service [api] of the spec's scenario, with launch check
    [ports: [8080]]. *)
Definition api : ServiceConfig :=
  mkServiceConfig "api" false (Some (mkLaunchChecks "" [8080])).

(** A service without launch checks. *)
Definition web : ServiceConfig := mkServiceConfig "web" false None.

Definition allIncluded : OperationConfig := mkOperationConfig (fun _ => false).
Definition allExcluded : OperationConfig := mkOperationConfig (fun _ => true).

(** A fresh run of the tool: empty cache, nothing called yet. *)
Definition freshWorld (pids : gmap string (Result string))
    (logs : gmap string (list string)) : World :=
  mkWorld sampleHome pids logs [] [].

Definition leaf (pid : Z) : Process := mkProcess pid (Err ESRCH).

(** [api] running as pid 4242 in its own process group. *)
Definition apiProc (ignoresInterrupt foreign : bool) : ProcInfo :=
  mkProcInfo 4242 "node api.js" 1500000000123 4242 ignoresInterrupt foreign (leaf 4242).

(** Pid 4242 reused by an unrelated process. *)
Definition strangerProc : ProcInfo :=
  mkProcInfo 4242 "vim notes.txt" 1500000000123 4242 true false (leaf 4242).

(** [api] as a supervisor (pid 100) with two listening workers. *)
Definition apiTree : Process := mkProcess 100 (Ok [leaf 101; leaf 102]).
Definition apiSupervisor : ProcInfo :=
  mkProcInfo 100 "node api.js" 1500000000123 100 true false apiTree.

Definition workersTable : list ConnectionStat :=
  [ mkConnectionStat "LISTEN" 101 8080;
    mkConnectionStat "LISTEN" 101 9090;
    mkConnectionStat "ESTABLISHED" 101 51000;
    mkConnectionStat "LISTEN" 102 9091;
    mkConnectionStat "LISTEN" 7 22 ].


Definition apiLog : list string :=
  [ "{" +:+ quoted "Stream" +:+ ":" +:+ quoted "stdout" +:+ "}";
    "panic: not json";
    "{" +:+ quoted "Stream" +:+ ":" +:+ quoted "stderr" +:+ "}";
    "{" +:+ quoted "Stream" +:+ ":" +:+ quoted "stdout" +:+ "}" ].

(** A build that fails and a spawn that records pid 4242. *)
Definition failingOps : CommandOps :=
  mkCommandOps (fun _ _ => ret (Some (errorsNew "exit status 2")))
               (fun command _ w =>
                  (None, mkWorld (home w) (<[ apiPidFile := Ok "4242" ]> (pidfiles w))
                                 (logfiles w) (connectionsCache w) (trace w))).

(** ** Loading a service from its configuration *)

(** The deprecated [ServiceConfigProperties]; its [Custom] member is never
    decoded. *)
Record ServiceConfigProperties : Type := mkServiceConfigProperties {
  Started : string
}.

(** The errors [UnmarshalJSON] returns: [errors.Wrap(err, msg)] around a
    decoding failure, or the wrapped outcome of [validate]. *)
Inductive loadError : Type :=
| Wrap (cause : error) (msg : string)
| Plain (e : error).

(** [validate]: a log launch check and a port launch check exclude each
    other. *)
Definition validate (c : ServiceConfig) : option error :=
  match LaunchChecks c with
  | Some lc =>
      if (0 <? Z.of_nat (String.length (LogText lc)))
         && (0 <? Z.of_nat (length (Ports lc)))
      then Some (errorsNew "cannot specify both a log and port launch check")
      else None
  | None => None
  end.

(** [UnmarshalJSON].  [decode data c] stands for [json.Unmarshal(data, &aux)]:
    through the embedded alias it fills the fields of [c], and it yields the
    legacy [log_properties] block when the data has one.  The receiver is
    updated in place, so the service is returned beside the error. *)
Definition UnmarshalJSON
    (decode : string -> ServiceConfig ->
              option ServiceConfigProperties * ServiceConfig * option error)
    (c : ServiceConfig) (data : string) : ServiceConfig * option loadError :=
  let '(properties, c, err) := decode data c in
  match err with
  | Some e => (c, Some (Wrap e "could not parse service config"))
  | None =>
      let c :=
        match properties with
        | Some auxProperties =>
            match LaunchChecks c with
            | Some lc =>
                mkServiceConfig (Name c) (RequiresSudo c)
                  (Some (mkLaunchChecks (Started auxProperties) (Ports lc)))
            | None =>
                mkServiceConfig (Name c) (RequiresSudo c)
                  (Some (mkLaunchChecks (Started auxProperties) []))
            end
        | None => c
        end in
      (c, match WithStackNil (validate c) with
          | Some e => Some (Plain e)
          | None => None
          end)
  end.

(** ** Further observations on the interaction history *)

Definition isSleep (ev : Event) : bool :=
  match evCall ev with
  | CallSleep _ => true
  | _ => false
  end.

(** The time spent in [time.Sleep], in nanoseconds. *)
Fixpoint slept (h : History) : Z :=
  match h with
  | [] => 0
  | ev :: rest =>
      match evCall ev with
      | CallSleep d => d + slept rest
      | _ => slept rest
      end
  end.

(** What [n] rounds of [waitForTerm] that all find the process alive leave
    in the history: a poll and a nap each. *)
Fixpoint timedOut (pid : Z) (n : nat) : History :=
  match n with
  | O => []
  | S n' =>
      mkEvent (CallSleep (100 * Millisecond)) None
        :: mkEvent (CallPidExists pid) None :: timedOut pid n'
  end.

(** The pid record of a service. *)
Definition pidPath (w : World) (c : ServiceConfig) : string :=
  pathJoin (PidDir (home w)) (Name c +:+ ".pid").

(** What a step may do to the world: it leaves the directories, the run
    logs and the connection cache alone, removes at most the pid record
    [p], sends the signals [sent] (newest first), naps for [nap] and
    fetches no connection table. *)
Definition effect (p : string) (w w' : World) (sent : list Call) (nap : Z) : Prop :=
  home w' = home w /\ logfiles w' = logfiles w /\
  connectionsCache w' = connectionsCache w /\
  (pidfiles w' = pidfiles w \/ pidfiles w' = delete p (pidfiles w)) /\
  signalsSent (trace w') = sent ++ signalsSent (trace w) /\
  slept (trace w') = slept (trace w) + nap /\
  fetches (trace w') = fetches (trace w).

(** The signals one [Stop] may send, newest first: nothing, one interrupt,
    or one interrupt followed by one kill of a process group other than 0
    and 1. *)
Definition stopSignals (sent : list Call) : Prop :=
  sent = [] \/
  (exists pid, sent = [CallSendSignal pid SIGINT]) \/
  (exists pid pgid, sent = [CallKillGroup pgid; CallSendSignal pid SIGINT] /\
                    pgid <> 0 /\ pgid <> 1).

(** A call that looks something up or removes a pid record. *)
Definition isLookup (ev : Event) : Prop :=
  isSignal ev = false /\ isSleep ev = false.

(** What port discovery may do to the world: it fetches connection tables
    (and so may fill the cache) and does nothing else. *)
Definition discovers (w w' : World) : Prop :=
  home w' = home w /\ pidfiles w' = pidfiles w /\ logfiles w' = logfiles w /\
  hext (fun ev => evCall ev = CallConnections) (trace w) (trace w').

(** A port that discovery may list: the text of a port that is not declared
    as a launch check. *)
Definition undeclared (c : ServiceConfig) (s : string) : Prop :=
  exists port, s = Itoa port /\ ~ In port (declared c).

(** A legacy decoder for the examples: the data ["legacy"] carries a
    [log_properties] block with [started: "Listening"], and every data keeps
    the fields of the service. *)
Definition sampleDecode (data : string) (c : ServiceConfig)
    : option ServiceConfigProperties * ServiceConfig * option error :=
  if String.eqb data "legacy"
  then (Some (mkServiceConfigProperties "Listening"), c, None)
  else (None, c, None).

(** * Properties *)

(** ** Histories *)

Lemma hext_refl P h : hext P h h.
Proof. exists []. split; [reflexivity | constructor]. Qed.

Lemma hext_cons P h h' ev : P ev -> hext P h h' -> hext P h (ev :: h').
Proof.
  intros Hev (evs & -> & Hall). exists (ev :: evs).
  split; [reflexivity | by constructor].
Qed.

Lemma hext_trans P h1 h2 h3 : hext P h1 h2 -> hext P h2 h3 -> hext P h1 h3.
Proof.
  intros (e1 & -> & H1) (e2 & -> & H2). exists (e2 ++ e1).
  split; [by rewrite app_assoc | by apply Forall_app].
Qed.

Lemma hext_weaken (P Q : Event -> Prop) h h' :
  (forall ev, P ev -> Q ev) -> hext P h h' -> hext Q h h'.
Proof.
  intros HPQ (evs & -> & Hall). exists evs.
  split; [reflexivity | eapply Forall_impl; eauto].
Qed.

Lemma extends_hext P w w' : extends P w w' <-> hext P (trace w) (trace w').
Proof. reflexivity. Qed.

Lemma hext_filter (f : Event -> bool) h h' :
  hext (fun ev => f ev = false) h h' -> List.filter f h' = List.filter f h.
Proof.
  intros (evs & -> & Hall). rewrite List.filter_app.
  induction Hall as [|ev evs Hev _ IH]; [reflexivity|].
  simpl. rewrite Hev. exact IH.
Qed.

Lemma quiet_signals h h' : hext quiet h h' -> signalsSent h' = signalsSent h.
Proof.
  intros H. unfold signalsSent. f_equal. apply hext_filter.
  eapply hext_weaken; [|exact H]. by intros ev [].
Qed.




(** ** The monad, unfolded *)

Ltac unfold_calls :=
  unfold PidExists, NewProcess, Cmdline, CreateTime, SendSignal, Getpgid,
    KillGroup, Sleep, ReadFile, getPidPath, clearState, GetRunLog,
    oscall, oscallErr, record, try, bind, ret in *.

Ltac hext_tac :=
  repeat (apply hext_cons; [repeat split; reflexivity|]); apply hext_refl.

(** ** [GetCommand] *)

Lemma GetCommand_footprint os c w r w' :
  GetCommand os c w = (r, w') ->
  home w' = home w /\ logfiles w' = logfiles w /\
  connectionsCache w' = connectionsCache w /\ extends quiet w w'.
Proof.
  unfold GetCommand, extends. unfold_calls. intros H.
  repeat (case_match; simplify_eq/=); repeat split; try reflexivity; hext_tac.
Qed.

(** Without a pid record, [GetCommand] answers the unset pid and touches
    nothing. *)
Lemma GetCommand_no_record os c w :
  pidfiles w !! pathJoin (PidDir (home w)) (Name c +:+ ".pid") = None ->
  GetCommand os c w = (Ok (mkServiceCommand c 0), w).
Proof. unfold GetCommand. unfold_calls. simpl. by intros ->. Qed.

(** ** The steps of the termination protocol *)




Lemma wentWell_weaken (P Q : Event -> Prop) h h' :
  (forall ev, P ev -> Q ev) -> wentWell P h h' -> wentWell Q h h'.
Proof. intros HPQ. apply hext_weaken. intros ev []. split; auto. Qed.

Lemma failedAt_weaken (P Q : Event -> Prop) e h h' :
  (forall ev, P ev -> Q ev) -> failedAt P e h h' -> failedAt Q e h h'.
Proof.
  intros HPQ (call & h0 & -> & HP & Hw). exists call, h0.
  repeat split; auto. by eapply wentWell_weaken.
Qed.

Lemma failedAt_after P e h1 h2 h3 :
  wentWell P h1 h2 -> failedAt P e h2 h3 -> failedAt P e h1 h3.
Proof.
  intros H12 (call & h0 & -> & HP & Hw). exists call, h0.
  repeat split; auto. by eapply hext_trans.
Qed.

Lemma stepShape_after {A} P (r : Result A) h1 h2 h3 :
  wentWell P h1 h2 -> stepShape P r h2 h3 -> stepShape P r h1 h3.
Proof.
  intros H12. destruct r as [a|x]; simpl.
  - by eapply hext_trans.
  - intros (e & -> & H). exists e. split; [reflexivity|]. by eapply failedAt_after.
Qed.

Ltac well_tac :=
  repeat (apply hext_cons; [repeat split; reflexivity|]); apply hext_refl.

Ltac failed_tac :=
  eexists; split; [reflexivity|]; eexists _, _;
  split; [reflexivity|]; split; [repeat split; reflexivity | well_tac].

Section TerminationSteps.
Context (os : OS) (command : ServiceCommand).

Lemma interruptProcess_footprint cfg w r w' :
  interruptProcess os cfg command w = (r, w') ->
  frame w w' /\ stepShape gentle r (trace w) (trace w').
Proof.
  unfold interruptProcess, frame, stepShape, wentWell. unfold_calls. intros H.
  repeat (case_match; simplify_eq/=);
    (split; [repeat split; reflexivity|]); first [well_tac | failed_tac].
Qed.

Lemma waitLoop_footprint timeout fuel : forall elapsed w r w',
  waitLoop os command timeout fuel elapsed w = (r, w') ->
  frame w w' /\ stepShape gentle r (trace w) (trace w').
Proof.
  induction fuel as [|fuel IH]; intros elapsed w r w' H; simpl in H.
  - unfold ret in H. simplify_eq. split; [by repeat split | apply hext_refl].
  - destruct (elapsed <=? timeout).
    2:{ unfold ret in H. simplify_eq. split; [by repeat split | apply hext_refl]. }
    unfold try, PidExists, oscall in H. simpl in H.
    destruct (osPidExists os (trace w) (int32 (Pid command))) as [[]|e] eqn:Hx;
      simpl in H.
    + unfold bind, Sleep, record in H. simpl in H.
      apply IH in H as [(? & ? & ? & ?) Hs]. simpl in *.
      split; [by repeat split|].
      eapply stepShape_after; [|exact Hs]. unfold wentWell. well_tac.
    + unfold ret in H. simplify_eq. split; [by repeat split|].
      simpl. unfold wentWell. well_tac.
    + simplify_eq. split; [by repeat split|]. simpl. failed_tac.
Qed.

Lemma waitForTerm_footprint timeout w r w' :
  waitForTerm os command timeout w = (r, w') ->
  frame w w' /\ stepShape gentle r (trace w) (trace w').
Proof. apply waitLoop_footprint. Qed.

(** The fuel of [waitLoop] is exact: [elapsed <= timeout] holds in each of
    the [pollCount timeout] rounds and fails after the last. *)
Lemma pollCount_enter timeout (k : nat) :
  (k < pollCount timeout)%nat -> Z.of_nat k * (100 * Millisecond) <= timeout.
Proof.
  unfold pollCount, Millisecond. change (100 * 1000000) with 100000000.
  destruct (Z.ltb_spec timeout 0); [lia|]. intros Hk.
  assert (Z.of_nat k <= timeout / 100000000) by lia.
  pose proof (Z.mul_div_le timeout 100000000). nia.
Qed.

Lemma pollCount_exit timeout :
  timeout < Z.of_nat (pollCount timeout) * (100 * Millisecond).
Proof.
  unfold pollCount, Millisecond. change (100 * 1000000) with 100000000.
  destruct (Z.ltb_spec timeout 0); [lia|].
  rewrite Z2Nat.id by (pose proof (Z.div_pos timeout 100000000); lia).
  pose proof (Z.mod_pos_bound timeout 100000000).
  pose proof (Z.div_mod timeout 100000000). lia.
Qed.

(** More fuel than [pollCount timeout] changes nothing: [waitForTerm] never
    ends for lack of fuel. *)
Lemma waitLoop_fuel timeout fuel : forall elapsed extra w,
  timeout < elapsed + Z.of_nat fuel * (100 * Millisecond) ->
  waitLoop os command timeout (fuel + extra) elapsed w =
    waitLoop os command timeout fuel elapsed w.
Proof.
  induction fuel as [|fuel IH]; intros elapsed extra w Hlt.
  - destruct extra as [|extra]; [reflexivity|]. simpl.
    destruct (Z.leb_spec elapsed timeout); [lia | reflexivity].
  - simpl. destruct (elapsed <=? timeout); [|reflexivity].
    unfold try, PidExists, oscall. simpl.
    destruct (osPidExists os (trace w) (int32 (Pid command))) as [[]|e];
      simpl; try reflexivity.
    unfold bind, Sleep, record. simpl. apply IH. lia.
Qed.

Lemma waitForTerm_fuel timeout extra w :
  waitLoop os command timeout (pollCount timeout + extra) 0 w =
    waitForTerm os command timeout w.
Proof. apply waitLoop_fuel. pose proof (pollCount_exit timeout). lia. Qed.

End TerminationSteps.

(** ** [Stop] *)

Lemma stepShape_any {A} P (r : Result A) h h' :
  stepShape P r h h' -> stepShape anyCall r h h'.
Proof.
  destruct r as [a|x]; simpl.
  - apply wentWell_weaken. by intros.
  - intros (e & -> & H). exists e. split; [reflexivity|].
    eapply failedAt_weaken; [|exact H]. by intros.
Qed.

Lemma stopShape_after res h1 h2 h3 :
  wentWell anyCall h1 h2 -> stopShape res h2 h3 -> stopShape res h1 h3.
Proof.
  intros H12 [Hw|(e & Hf & ->)].
  - left. by eapply hext_trans.
  - right. exists e. split; [by eapply failedAt_after | reflexivity].
Qed.

Lemma killProcess_shape os cfg c command w b err w' :
  killProcess os cfg c command w = ((b, err), w') ->
  frame w w' /\
  match err with
  | None => wentWell anyCall (trace w) (trace w') /\ b = true
  | Some x =>
      (exists e, x = WithStack e /\ failedAt anyCall e (trace w) (trace w')) \/
      (wentWell anyCall (trace w) (trace w') /\ exists msg, x = WithStack (errorsNew msg))
  end.
Proof.
  unfold killProcess, frame, wentWell, WithStackNil. unfold_calls. intros H.
  repeat (case_match; simplify_eq/=); (split; [by repeat split|]);
    first [ split; [well_tac | reflexivity]
          | left; failed_tac
          | right; split; [well_tac | by eexists] ].
Qed.

Lemma stopSucceeded_shape command w res w' :
  stopSucceeded command w = (res, w') ->
  res = (None, Some TrackSuccess) /\ wentWell anyCall (trace w) (trace w').
Proof.
  unfold stopSucceeded, wentWell. unfold_calls. intros H. simplify_eq/=.
  split; [reflexivity | well_tac].
Qed.

(** After a successful [GetCommand], [Stop] hands its caller no error, and
    its termination steps end in one of the two ways of [stopShape]. *)
Lemma Stop_shape os cfg c w command w1 res w' :
  IsExcluded cfg c = false ->
  GetCommand os c w = (Ok command, w1) ->
  Stop os cfg c w = (res, w') ->
  fst res = None /\ stopShape res (trace w1) (trace w').
Proof.
  intros Hex Hget. unfold Stop. rewrite Hex. unfold bind at 1. rewrite Hget.
  destruct (Pid command =? 0).
  { unfold ret. intros ?; simplify_eq. split; [reflexivity|]. left. apply hext_refl. }
  unfold bind at 1.
  destruct (interruptProcess os cfg command w1) as [r2 w2] eqn:Hint.
  apply interruptProcess_footprint in Hint as [_ Hs2]. apply stepShape_any in Hs2.
  destruct r2 as [stopped|x]; simpl in Hs2.
  2:{ unfold ret. intros ?; simplify_eq. destruct Hs2 as (e & -> & Hf).
      split; [reflexivity|]. right. by exists e. }
  destruct stopped; simpl.
  { intros [-> Hw]%stopSucceeded_shape. split; [reflexivity|]. left.
    by eapply hext_trans. }
  unfold bind at 1.
  destruct (waitForTerm os command (Second * 5) w2) as [r3 w3] eqn:Hwait.
  apply waitForTerm_footprint in Hwait as [_ Hs3]. apply stepShape_any in Hs3.
  destruct r3 as [stopped|x]; simpl in Hs3.
  2:{ unfold ret. intros ?; simplify_eq. destruct Hs3 as (e & -> & Hf).
      split; [reflexivity|]. right. exists e.
      split; [by eapply failedAt_after | reflexivity]. }
  assert (wentWell anyCall (trace w1) (trace w3)) as H13 by (by eapply hext_trans).
  destruct stopped; simpl.
  { intros [-> Hw]%stopSucceeded_shape. split; [reflexivity|]. left.
    by eapply hext_trans. }
  unfold bind at 1.
  destruct (killProcess os cfg c command w3) as [[b err] w4] eqn:Hkill.
  apply killProcess_shape in Hkill as [_ Hs4].
  destruct err as [x|].
  - unfold ret. intros ?; simplify_eq. split; [reflexivity|].
    destruct Hs4 as [(e & -> & Hf)|[Hw (msg & ->)]].
    + right. exists e. split; [by eapply failedAt_after | reflexivity].
    + left. by eapply hext_trans.
  - destruct Hs4 as [Hw ->]. unfold ret. intros ?; simplify_eq.
    split; [reflexivity|]. left. by eapply hext_trans.
Qed.

Lemma Stop_excluded os cfg c w :
  IsExcluded cfg c = true -> Stop os cfg c w = ((None, None), w).
Proof. intros H. unfold Stop. by rewrite H. Qed.

(** C4, as amended.  For a service that is not excluded from the operation
    and whose persisted identity is absent ([GetCommand] yields the unset
    pid 0), [Stop] returns no error to its caller, reports the soft failure
    "Not running", and sends no signal to any process. *)
Theorem Stop_not_running os cfg c w command w1 :
  IsExcluded cfg c = false ->
  GetCommand os c w = (Ok command, w1) ->
  Pid command = 0 ->
  Stop os cfg c w = ((None, Some (TrackSoftFail (errorsNew "Not running"))), w1) /\
  signalsSent (trace w1) = signalsSent (trace w).
Proof.
  intros Hex Hget Hpid. split.
  - unfold Stop. rewrite Hex. unfold bind. rewrite Hget, Hpid. reflexivity.
  - apply GetCommand_footprint in Hget as (_ & _ & _ & Hq).
    by apply quiet_signals.
Qed.

Lemma Stop_not_running_witness :
  Stop (simOS [] []) allIncluded api (freshWorld ∅ ∅) =
    ((None, Some (TrackSoftFail (errorsNew "Not running"))), freshWorld ∅ ∅) /\
  signalsSent (trace (freshWorld ∅ ∅)) = signalsSent (trace (freshWorld ∅ ∅)).
Proof.
  apply (Stop_not_running (simOS [] []) allIncluded api (freshWorld ∅ ∅)
           (mkServiceCommand api 0) (freshWorld ∅ ∅)); reflexivity.
Defined.

(** C4 as stated fails for a service excluded from the operation: with no
    persisted identity, [Stop] returns at once and reports nothing, so there
    is no "not running" outcome. *)
Lemma Stop_excluded_reports_nothing :
  IsExcluded allExcluded api = true /\
  pidfiles (freshWorld ∅ ∅) !! apiPidFile = None /\
  Stop (simOS [] []) allExcluded api (freshWorld ∅ ∅) = ((None, None), freshWorld ∅ ∅) /\
  snd (fst (Stop (simOS [] []) allExcluded api (freshWorld ∅ ∅)))
    <> Some (TrackSoftFail (errorsNew "Not running")).
Proof. repeat split; discriminate. Qed.



(** C6, as amended.  When a call to the system fails during the termination
    steps of a [Stop] (interrupt, wait or kill), that call is the last one
    made: the remaining steps are abandoned.  The failure, wrapped by
    [errors.WithStack], is reported to the tracker as a hard failure; [Stop]
    itself returns no error to its caller. *)
Theorem Stop_os_failure_reported os cfg c w command w1 res w' evs call e :
  IsExcluded cfg c = false ->
  GetCommand os c w = (Ok command, w1) ->
  Stop os cfg c w = (res, w') ->
  trace w' = evs ++ trace w1 ->
  In (mkEvent call (Some e)) evs ->
  (exists earlier, evs = mkEvent call (Some e) :: earlier /\ Forall succeeded earlier) /\
  res = (None, Some (TrackFail (WithStack e))).
Proof.
  intros Hex Hget Hstop Htr Hin.
  destruct (Stop_shape _ _ _ _ _ _ _ _ Hex Hget Hstop) as [_ [Hw|(e' & Hf & ->)]].
  - destruct Hw as (evs' & Heq & Hall). rewrite Htr in Heq.
    apply app_inv_tail in Heq as ->.
    rewrite Forall_forall in Hall. apply list_elem_of_In, Hall in Hin as [_ Hs].
    discriminate Hs.
  - destruct Hf as (call' & h0 & Heq & _ & (evs0 & -> & Hall)).
    rewrite Htr in Heq. change (evs ++ trace w1 = (mkEvent call' (Some e') :: evs0) ++ trace w1) in Heq.
    apply app_inv_tail in Heq as ->.
    assert (Forall succeeded evs0) as Hsucc.
    { eapply Forall_impl; [exact Hall|]. by intros ev []. }
    destruct Hin as [Heq|Hin].
    + simplify_eq. split; [|reflexivity]. by exists evs0.
    + rewrite Forall_forall in Hsucc. apply list_elem_of_In, Hsucc in Hin. discriminate Hin.
Qed.

Lemma Stop_os_failure_reported_witness :
  fst (Stop (simOS [apiProc false true] []) allIncluded api
         (freshWorld {[ apiPidFile := Ok "4242" ]} ∅))
  = (None, Some (TrackFail (WithStack EPERM))).
Proof.
  pose (os := simOS [apiProc false true] []).
  pose (w := freshWorld {[ apiPidFile := Ok "4242" ]} ∅).
  apply (Stop_os_failure_reported os allIncluded api w (mkServiceCommand api 4242)
           (snd (GetCommand os api w)) _ (snd (Stop os allIncluded api w))
           [mkEvent (CallSendSignal 4242 SIGINT) (Some EPERM);
            mkEvent (CallNewProcess 4242) None]
           (CallSendSignal 4242 SIGINT) EPERM).
  - reflexivity.
  - vm_compute; reflexivity.
  - vm_compute; reflexivity.
  - vm_compute; reflexivity.
  - left; reflexivity.
Defined.

(** C6 as stated fails: a refused interrupt is reported to the tracker, but
    [Stop] hands its caller no error. *)
Lemma Stop_returns_nil_on_signal_failure :
  In (mkEvent (CallSendSignal 4242 SIGINT) (Some EPERM))
     (trace (snd (Stop (simOS [apiProc false true] []) allIncluded api
                    (freshWorld {[ apiPidFile := Ok "4242" ]} ∅)))) /\
  fst (fst (Stop (simOS [apiProc false true] []) allIncluded api
              (freshWorld {[ apiPidFile := Ok "4242" ]} ∅))) = None.
Proof. split; [left|]; vm_compute; reflexivity. Qed.

Lemma GetCommand_service os c w command w1 :
  GetCommand os c w = (Ok command, w1) -> Service command = c.
Proof.
  unfold GetCommand. unfold_calls. intros H.
  repeat (case_match; simplify_eq/=); reflexivity.
Qed.

(** A [Stop] that reports success has deleted the service's pid record. *)
Lemma Stop_success_clears os cfg c w err w' :
  Stop os cfg c w = ((err, Some TrackSuccess), w') ->
  pidfiles w' !! pathJoin (PidDir (home w)) (Name c +:+ ".pid") = None.
Proof.
  unfold Stop. destruct (IsExcluded cfg c); [discriminate|].
  unfold bind at 1. destruct (GetCommand os c w) as [[command|x] w1] eqn:Hget;
    [|discriminate].
  pose proof (GetCommand_service _ _ _ _ _ Hget) as Hsvc.
  apply GetCommand_footprint in Hget as (Hhome & _).
  destruct (Pid command =? 0); [discriminate|].
  unfold bind at 1.
  destruct (interruptProcess os cfg command w1) as [[stopped|x] w2] eqn:Hint;
    [|discriminate].
  apply interruptProcess_footprint in Hint as [(Hh2 & _) _].
  assert (forall w3 res, home w3 = home w ->
            stopSucceeded command w3 = (res, w') ->
            pidfiles w' !! pathJoin (PidDir (home w)) (Name c +:+ ".pid") = None)
    as Hclear.
  { intros w3 res Hh3. unfold stopSucceeded. unfold_calls. intros H.
    simplify_eq/=. rewrite Hh3. apply lookup_delete_eq. }
  destruct stopped; simpl.
  { apply Hclear. congruence. }
  unfold bind at 1.
  destruct (waitForTerm os command (Second * 5) w2) as [[stopped|x] w3] eqn:Hwait;
    [|discriminate].
  apply waitForTerm_footprint in Hwait as [(Hh3 & _) _].
  destruct stopped; simpl.
  { apply Hclear. congruence. }
  unfold bind at 1.
  destruct (killProcess os cfg c command w3) as [[b [e|]] w4]; [discriminate|].
  destruct b; discriminate.
Qed.

(** C2, at the failing input.  [api] runs as pid 4242 and ignores the
    interrupt; [Stop] kills its process group and reports "Killed", and the
    pid record is still there when [Stop] returns. *)
Theorem Stop_killed_keeps_pid_record :
  fst (Stop (simOS [apiProc true false] []) allIncluded api
         (freshWorld {[ apiPidFile := Ok "4242" ]} ∅))
    = (None, Some (TrackSoftFail (errorsNew "Killed"))) /\
  forcefulSent (trace (snd (Stop (simOS [apiProc true false] []) allIncluded api
                              (freshWorld {[ apiPidFile := Ok "4242" ]} ∅))))
    = [CallKillGroup 4242] /\
  pidfiles (snd (Stop (simOS [apiProc true false] []) allIncluded api
                   (freshWorld {[ apiPidFile := Ok "4242" ]} ∅))) !! apiPidFile
    = Some (Ok "4242").
Proof. repeat split; vm_compute; reflexivity. Qed.

(** ** [Status] on a stale identity *)

(** Without a pid record, [Status] answers Stopped and touches nothing. *)
Lemma Status_no_record os c w :
  pidfiles w !! pathJoin (PidDir (home w)) (Name c +:+ ".pid") = None ->
  Status os c w = (Ok [stoppedStatus c], w).
Proof.
  intros H. unfold Status, try. by rewrite (GetCommand_no_record _ _ _ H).
Qed.

(** The recorded pid is alive but its command line lacks the service's
    name: [Status] answers Stopped, deletes the pid record and sends no
    signal; a second [Status] answers Stopped again and changes nothing. *)
Lemma Status_foreign_cmdline_recovers os c w dat pid proc cmdline :
  let pidFile := pathJoin (PidDir (home w)) (Name c +:+ ".pid") in
  let ev1 := mkEvent (CallPidExists (int32 pid)) None in
  let ev2 := mkEvent (CallNewProcess (int32 pid)) None in
  pidfiles w !! pidFile = Some (Ok dat) ->
  Atoi dat = Ok pid ->
  osPidExists os (trace w) (int32 pid) = Ok true ->
  osNewProcess os (ev1 :: trace w) (int32 pid) = Ok proc ->
  osCmdline os (ev2 :: ev1 :: trace w) (procPid proc) = Ok cmdline ->
  Contains cmdline (Name c) = false ->
  exists w',
    Status os c w = (Ok [stoppedStatus c], w') /\
    pidfiles w' !! pidFile = None /\
    signalsSent (trace w') = signalsSent (trace w) /\
    Status os c w' = (Ok [stoppedStatus c], w').
Proof.
  intros pidFile ev1 ev2 Hfile Hatoi Hex Hnew Hcmd Hname.
  exists (mkWorld (home w) (delete pidFile (pidfiles w)) (logfiles w)
            (connectionsCache w)
            (mkEvent (CallRemove pidFile) None
               :: mkEvent (CallCmdline (procPid proc)) None :: ev2 :: ev1 :: trace w)).
  split; [|split; [apply lookup_delete_eq|split; [reflexivity|]]].
  - unfold Status, try at 1, GetCommand. unfold_calls. simpl.
    fold pidFile. rewrite Hfile, Hatoi. simpl. rewrite Hex. simpl.
    fold ev1. rewrite Hnew. simpl. fold ev2. rewrite Hcmd, Hname. reflexivity.
  - apply Status_no_record. simpl. apply lookup_delete_eq.
Qed.

(** The recorded pid has no live process and the system knows no process 0:
    [GetCommand] resets the identity and then looks up the reset pid, so
    [Status] fails with the error of that lookup. *)
Lemma Status_dead_pid_error os c w dat pid e :
  let pidFile := pathJoin (PidDir (home w)) (Name c +:+ ".pid") in
  let ev1 := mkEvent (CallPidExists (int32 pid)) None in
  let ev2 := mkEvent (CallRemove pidFile) None in
  pidfiles w !! pidFile = Some (Ok dat) ->
  Atoi dat = Ok pid ->
  osPidExists os (trace w) (int32 pid) = Ok false ->
  osNewProcess os (ev2 :: ev1 :: trace w) 0 = Err e ->
  exists w',
    Status os c w = (Err (WithStack (WithStack e)), w') /\
    pidfiles w' !! pidFile = None.
Proof.
  intros pidFile ev1 ev2. subst pidFile ev1 ev2. intros Hfile Hatoi Hex Hnew.
  unfold Status, try at 1, GetCommand. unfold_calls. simpl.
  rewrite Hfile, Hatoi. simpl. rewrite Hex. simpl.
  change (int32 0) with 0. rewrite Hnew. simpl.
  eexists. split; [reflexivity | apply lookup_delete_eq].
Qed.

(** C1, at the failing input.  The pid record of [api] names pid 4242 and no
    such process lives: [Status] returns an error instead of a Stopped
    status.  (The record is deleted and no signal is sent.) *)
Theorem Status_dead_pid_fails :
  osPidExists (simOS [] []) [] 4242 = Ok false /\
  fst (Status (simOS [] []) api (freshWorld {[ apiPidFile := Ok "4242" ]} ∅))
    = Err (WithStack (WithStack ESRCH)) /\
  pidfiles (snd (Status (simOS [] []) api
                   (freshWorld {[ apiPidFile := Ok "4242" ]} ∅))) !! apiPidFile = None /\
  signalsSent (trace (snd (Status (simOS [] []) api
                             (freshWorld {[ apiPidFile := Ok "4242" ]} ∅)))) = [].
Proof. repeat split; vm_compute; reflexivity. Qed.

(** C9, at the failing input.  With the pid record of [api] naming the dead
    pid 4242, the first [Status] returns an error, not Stopped, while it
    deletes the record; the second [Status] returns Stopped and changes
    nothing. *)
Theorem Status_twice_on_dead_pid :
  let os := simOS [] [] in
  let w := freshWorld {[ apiPidFile := Ok "4242" ]} ∅ in
  let w1 := snd (Status os api w) in
  fst (Status os api w) = Err (WithStack (WithStack ESRCH)) /\
  pidfiles w1 !! apiPidFile = None /\
  Status os api w1 = (Ok [stoppedStatus api], w1).
Proof. repeat split; vm_compute; reflexivity. Qed.

(** ** Port discovery and the connection cache *)

Lemma Process_tree_ind (P : Process -> Prop) :
  (forall pid e, P (mkProcess pid (Err e))) ->
  (forall pid cs, Forall P cs -> P (mkProcess pid (Ok cs))) ->
  forall p, P p.
Proof.
  intros Hleaf Hnode. fix IH 1. intros [pid [cs|e]].
  - apply Hnode. induction cs as [|child cs IHcs]; constructor; [apply IH | exact IHcs].
  - apply Hleaf.
Qed.

Section PortDiscovery.
Context (os : OS) (c : ServiceConfig).


(** A successful fetch of a table that is not empty fills the cache. *)
Lemma fetchConnections_populates w table :
  connectionsCache w = [] ->
  osConnections os (trace w) = (table, None) ->
  exists w1, fetchConnections os w = (None, w1) /\ connectionsCache w1 = table /\
             fetches (trace w1) = mkEvent CallConnections None :: fetches (trace w).
Proof.
  intros Hempty Hos. unfold fetchConnections. rewrite Hempty, Hos. simpl.
  eexists. repeat split.
Qed.

Lemma ownPorts_acc known pid table : forall acc,
  ownPorts known pid table acc = acc ++ ownPorts known pid table [].
Proof.
  induction table as [|conn rest IH]; intros acc; simpl.
  - by rewrite app_nil_r.
  - destruct (String.eqb (connStatus conn) "LISTEN"); [|apply IH].
    destruct (Z.eqb (connPid conn) pid
              && negb (bool_decide (LaddrPort conn ∈ known))); [|apply IH].
    rewrite IH. rewrite (IH [_]). by rewrite <- app_assoc.
Qed.








(** What discovery lists: the LISTEN ports, not declared as launch checks,
    of the process and of each descendant. *)
Lemma In_ownPorts known pid table s :
  In s (ownPorts known pid table []) <->
  exists port, listening table pid port /\ (port ∉ known) /\ s = Itoa port.
Proof.
  induction table as [|conn rest IH]; simpl.
  - split; [intros [] | intros (port & (conn & [] & _) & _)].
  - assert (forall port, listening (conn :: rest) pid port <->
              (connStatus conn = "LISTEN" /\ connPid conn = pid /\ LaddrPort conn = port)
              \/ listening rest pid port) as Hl.
    { intros port. unfold listening. split.
      - intros (x & [->|Hin] & H); [left; exact H | right; by exists x].
      - intros [H|(x & Hin & H)]; [exists conn | exists x]; (split; [|exact H]);
          [by left | by right]. }
    destruct (String.eqb_spec (connStatus conn) "LISTEN") as [Hst|Hst];
      [destruct (Z.eqb_spec (connPid conn) pid) as [Hp|Hp];
       [destruct (bool_decide_reflect (LaddrPort conn ∈ known)) as [Hk|Hk]|]|]; simpl.
    all: try (rewrite IH; split;
              [ intros (port & Hlisten & H); exists port; split; [apply Hl; by right | exact H]
              | intros (port & [(H1 & H2 & H3)|Hlisten]%Hl & Hn & Heq);
                [congruence | exists port; by repeat split] ]).
    rewrite ownPorts_acc. simpl. rewrite IH. split.
    + intros [<-|(port & Hlisten & H)].
      * exists (LaddrPort conn). repeat split; [apply Hl; by left | exact Hk].
      * exists port. split; [apply Hl; by right | exact H].
    + intros (port & [(H1 & H2 & H3)|Hlisten]%Hl & Hn & Heq).
      * left. by subst.
      * right. exists port. by repeat split.
Qed.

Lemma elem_of_knownPorts port : port ∈ knownPorts c <-> In port (declared c).
Proof.
  unfold knownPorts, declared. destruct (LaunchChecks c) as [lc|].
  - rewrite elem_of_list_to_set. apply list_elem_of_In.
  - split; [intros H; by apply not_elem_of_empty in H | intros []].
Qed.


Lemma declaredPorts_declared : declaredPorts c = map Itoa (declared c).
Proof. unfold declaredPorts, declared. by destruct (LaunchChecks c). Qed.

End PortDiscovery.

(** ** [Status] of a running service *)

Lemma getLogCounts_world os c w : snd (getLogCounts os c w) = w.
Proof.
  unfold getLogCounts. unfold_calls. simpl.
  destruct (logfiles w !! _); [|reflexivity].
  by destruct (fold_left _ _ _) as [[] ?].
Qed.

Lemma getPorts_inv os c proc w ports w' :
  getPorts os c proc w = (Ok ports, w') ->
  exists found, doGetPorts os c proc w = (Ok found, w') /\
                ports = found ++ declaredPorts c.
Proof.
  unfold getPorts, try, ret. destruct (doGetPorts os c proc w) as [[found|x] w1];
    intros H; simplify_eq. by exists found.
Qed.

(** [Status] succeeds as soon as the identity, the process lookup, the
    creation time and port discovery do; counting log lines adds no way to
    fail. *)
Lemma Status_running os c w command w1 proc w2 t w3 ports w4 :
  GetCommand os c w = (Ok command, w1) ->
  Pid command <> 0 ->
  NewProcess os (int32 (Pid command)) w1 = (Ok proc, w2) ->
  CreateTime os proc w2 = (Ok t, w3) ->
  getPorts os c proc w3 = (Ok ports, w4) ->
  Status os c w = (Ok [runningStatus os c command t ports w4], w4).
Proof.
  intros Hget Hpid%Z.eqb_neq Hnew Htime Hports.
  unfold Status. unfold try at 1. rewrite Hget, Hpid. simpl.
  unfold try at 1. rewrite Hnew. unfold try at 1. rewrite Htime.
  unfold bind at 1. rewrite Hports. unfold bind, runningStatus.
  pose proof (getLogCounts_world os c w4) as Hw.
  destruct (getLogCounts os c w4) as [counts w5]. simpl in Hw. subst w5.
  reflexivity.
Qed.






(** ** The connection cache over a run *)





(** ** [Build], [Launch], [Start] *)

(** C8.  [Start] is [Build] followed by [Launch]: when [Build] fails,
    [Start] fails with that error and nothing further is done; otherwise
    [Start] ends as [Launch] does.  For a service excluded from the
    operation, each of the three returns no error and does nothing. *)
Theorem Start_is_Build_then_Launch os ops cfg c w :
  Start os ops cfg c w =
    (let '(err, w1) := Build os ops cfg c w in
     match err with
     | Some e => (Some (WithStack e), w1)
     | None => let '(err, w2) := Launch os ops cfg c w1 in (WithStackNil err, w2)
     end) /\
  (IsExcluded cfg c = true ->
     Build os ops cfg c w = (None, w) /\
     Launch os ops cfg c w = (None, w) /\
     Start os ops cfg c w = (None, w)).
Proof.
  split.
  - unfold Start. destruct (IsExcluded cfg c) eqn:Hex.
    + unfold Build, Launch. rewrite Hex. reflexivity.
    + unfold bind at 1. destruct (Build os ops cfg c w) as [[e|] w1]; [reflexivity|].
      unfold bind, ret. by destruct (Launch os ops cfg c w1).
  - intros Hex. unfold Start, Build, Launch. rewrite Hex. by repeat split.
Qed.

Lemma Start_is_Build_then_Launch_witness :
  Build (simOS [] []) failingOps allExcluded api (freshWorld ∅ ∅) = (None, freshWorld ∅ ∅) /\
  Launch (simOS [] []) failingOps allExcluded api (freshWorld ∅ ∅) = (None, freshWorld ∅ ∅) /\
  Start (simOS [] []) failingOps allExcluded api (freshWorld ∅ ∅) = (None, freshWorld ∅ ∅).
Proof.
  apply (Start_is_Build_then_Launch (simOS [] []) failingOps allExcluded api
           (freshWorld ∅ ∅)).
  reflexivity.
Defined.

(** A failed build stops [Start] before the launch: no pid is recorded. *)
Lemma Start_stops_at_failed_build :
  Start (simOS [] []) failingOps allIncluded api (freshWorld ∅ ∅) =
    (Some (WithStack (WithStack (errorsNew "exit status 2"))), freshWorld ∅ ∅).
Proof. reflexivity. Qed.

(** ** Log line counts *)

(** C10.  Counting log lines never makes [Status] fail: whenever the other
    steps of [Status] succeed, so does [Status], whatever the run log holds.
    If the run log cannot be opened both counts are 0.  A line whose decoding
    returns an error leaves both counts as they were. *)
Theorem log_counts_never_fail os c w :
  (forall command w1 proc w2 t w3 ports w4,
     GetCommand os c w = (Ok command, w1) ->
     Pid command <> 0 ->
     NewProcess os (int32 (Pid command)) w1 = (Ok proc, w2) ->
     CreateTime os proc w2 = (Ok t, w3) ->
     getPorts os c proc w3 = (Ok ports, w4) ->
     exists st, Status os c w = (Ok [st], w4) /\
                (StdoutCount st, StderrCount st) = fst (getLogCounts os c w4)) /\
  (logfiles w !! pathJoin (LogDir (home w)) (Name c +:+ ".log") = None ->
     getLogCounts os c w = ((0, 0), w)) /\
  (forall stdoutCount stderrCount lineData text,
     snd (jsonUnmarshal os text lineData) <> None ->
     fst (countLine os (stdoutCount, stderrCount, lineData) text)
       = (stdoutCount, stderrCount)).
Proof.
  split; [|split].
  - intros command w1 proc w2 t w3 ports w4 Hget Hpid Hnew Htime Hports.
    eexists. split; [by eapply Status_running|].
    unfold runningStatus. simpl. by destruct (getLogCounts os c w4) as [[] ?].
  - intros Hlog. unfold getLogCounts. unfold_calls. simpl. by rewrite Hlog.
  - intros so se ld text Herr. unfold countLine.
    destruct (jsonUnmarshal os text ld) as [ld' [e|]]; [reflexivity|].
    by contradiction Herr.
Qed.

Lemma log_counts_never_fail_witness :
  let os := simOS [apiSupervisor] workersTable in
  (exists st w',
     Status os api (freshWorld {[ apiPidFile := Ok "100" ]} {[ apiLogFile := apiLog ]})
       = (Ok [st], w') /\
     (StdoutCount st, StderrCount st) = (2, 1)) /\
  getLogCounts os api (freshWorld {[ apiPidFile := Ok "100" ]} ∅)
    = ((0, 0), freshWorld {[ apiPidFile := Ok "100" ]} ∅) /\
  fst (countLine os (1, 0, "stdout") "panic: not json") = (1, 0).
Proof.
  intros os.
  pose (w := freshWorld {[ apiPidFile := Ok "100" ]} {[ apiLogFile := apiLog ]}).
  pose (command := mkServiceCommand api 100).
  pose (w1 := snd (GetCommand os api w)).
  pose (w2 := snd (NewProcess os 100 w1)).
  pose (w3 := snd (CreateTime os apiTree w2)).
  pose (w4 := snd (getPorts os api apiTree w3)).
  split; [|split].
  - destruct (log_counts_never_fail os api w) as (Hstatus & _ & _).
    destruct (Hstatus command w1 apiTree w2 1500000000123 w3 ["9090"; "9091"; "8080"] w4)
      as (st & Hst & Hcounts);
      [vm_compute; reflexivity | discriminate | vm_compute; reflexivity
      | vm_compute; reflexivity | vm_compute; reflexivity |].
    exists st, w4. split; [exact Hst|]. rewrite Hcounts. vm_compute. reflexivity.
  - apply (log_counts_never_fail os api (freshWorld {[ apiPidFile := Ok "100" ]} ∅)).
    vm_compute. reflexivity.
  - apply (log_counts_never_fail os api w). vm_compute. discriminate.
Defined.

(** * Further properties of the lifecycle code *)

(** ** What the steps of [Stop] do to the world *)

Lemma effect_refl p w : effect p w w [] 0.
Proof. unfold effect. repeat split; try reflexivity; [by left | lia]. Qed.

Lemma effect_trans p w w1 w2 s1 s2 n1 n2 :
  effect p w w1 s1 n1 -> effect p w1 w2 s2 n2 ->
  effect p w w2 (s2 ++ s1) (n1 + n2).
Proof.
  intros (Hh1 & Hl1 & Hc1 & Hp1 & Hs1 & Hn1 & Hf1)
         (Hh2 & Hl2 & Hc2 & Hp2 & Hs2 & Hn2 & Hf2).
  unfold effect. repeat split; try congruence.
  - destruct Hp1 as [Hp1|Hp1], Hp2 as [Hp2|Hp2]; rewrite Hp2, Hp1;
      [by left | by right | by right | right; apply delete_delete_eq].
  - rewrite Hs2, Hs1. by rewrite app_assoc.
  - lia.
Qed.

Ltac effect_tac :=
  unfold effect, signalsSent, fetches; simpl;
  repeat split; try reflexivity; try lia;
  try (left; reflexivity); try (right; reflexivity);
  try (right; apply delete_delete_eq).

Lemma GetCommand_effect os c w r w' :
  GetCommand os c w = (r, w') -> effect (pidPath w c) w w' [] 0.
Proof.
  unfold GetCommand, pidPath. unfold_calls. intros H.
  repeat (case_match; simplify_eq/=); effect_tac.
Qed.

Section StopSteps.
Context (os : OS) (cfg : OperationConfig) (command : ServiceCommand).

(** A successful [interruptProcess] has sent exactly one interrupt; a failed
    one at most one. *)
Lemma interruptProcess_effect p w r w' :
  interruptProcess os cfg command w = (r, w') ->
  exists sent, effect p w w' sent 0 /\
    ((exists pid, sent = [CallSendSignal pid SIGINT]) \/
     (sent = [] /\ resultErr r <> None)).
Proof.
  unfold interruptProcess. unfold_calls. intros H.
  repeat (case_match; simplify_eq/=).
  all: first [ exists []; split; [solve [effect_tac] | right; by split]
             | eexists [_]; split; [solve [effect_tac] | left; by eexists] ].
Qed.

Lemma waitLoop_effect p timeout fuel : forall elapsed w r w',
  waitLoop os command timeout fuel elapsed w = (r, w') ->
  exists nap, effect p w w' [] nap /\
              0 <= nap <= Z.of_nat fuel * (100 * Millisecond).
Proof.
  induction fuel as [|fuel IH]; intros elapsed w r w' H; simpl in H.
  - unfold ret in H. simplify_eq. exists 0. split; [apply effect_refl | lia].
  - destruct (elapsed <=? timeout).
    2:{ unfold ret in H. simplify_eq. exists 0.
        split; [apply effect_refl | unfold Millisecond; lia]. }
    unfold try, PidExists, oscall in H. simpl in H.
    destruct (osPidExists os (trace w) (int32 (Pid command))) as [[]|e];
      simpl in H.
    + unfold bind, Sleep, record in H. simpl in H.
      apply IH in H as (nap & Heff & Hnap).
      exists (100 * Millisecond + nap). split; [|unfold Millisecond in *; lia].
      eapply (effect_trans p w _ w' [] [] (100 * Millisecond) nap); [|exact Heff].
      effect_tac.
    + unfold ret in H. simplify_eq. exists 0.
      split; [solve [effect_tac] | unfold Millisecond; lia].
    + simplify_eq. exists 0. split; [solve [effect_tac] | unfold Millisecond; lia].
Qed.

(** [killProcess] kills at most one process group, and never group 0 or 1. *)
Lemma killProcess_effect c p w r w' :
  killProcess os cfg c command w = (r, w') ->
  exists sent, effect p w w' sent 0 /\
    (sent = [] \/ exists pgid, sent = [CallKillGroup pgid] /\ pgid <> 0 /\ pgid <> 1).
Proof.
  unfold killProcess. unfold_calls. intros H.
  repeat (case_match; simplify_eq/=).
  all: first
    [ exists []; split; [solve [effect_tac] | by left]
    | match goal with Hg : (_ =? 0) || (_ =? 1) = false |- _ =>
        apply orb_false_iff in Hg as [?%Z.eqb_neq ?%Z.eqb_neq] end;
      eexists [_]; split; [solve [effect_tac] | right; eexists; by repeat split] ].
Qed.

Lemma stopSucceeded_effect w res w' :
  stopSucceeded command w = (res, w') ->
  res = (None, Some TrackSuccess) /\
  effect (pidPath w (Service command)) w w' [] 0 /\
  pidfiles w' = delete (pidPath w (Service command)) (pidfiles w).
Proof.
  unfold stopSucceeded, pidPath. unfold_calls. intros H. simplify_eq/=.
  repeat split; effect_tac.
Qed.

End StopSteps.

(** Every run of [Stop], summed up: what it does to the world, which
    signals it sends, how long it naps, and what a reported success means. *)
Lemma Stop_effect os cfg c w res w' :
  Stop os cfg c w = (res, w') ->
  exists sent nap,
    effect (pidPath w c) w w' sent nap /\ stopSignals sent /\
    0 <= nap <= 51 * (100 * Millisecond) /\
    (snd res = Some TrackSuccess ->
       IsExcluded cfg c = false /\ fst res = None /\
       (exists pid, sent = [CallSendSignal pid SIGINT]) /\
       pidfiles w' = delete (pidPath w c) (pidfiles w)).
Proof.
  assert (0 <= 0 <= 51 * (100 * Millisecond)) as Hzero by (unfold Millisecond; lia).
  unfold Stop. destruct (IsExcluded cfg c) eqn:Hex.
  { unfold ret. intros ?; simplify_eq. exists [], 0.
    split; [apply effect_refl|]. split; [by left|]. split; [lia | discriminate]. }
  unfold bind at 1. destruct (GetCommand os c w) as [[command|x] w1] eqn:Hget;
    pose proof (GetCommand_effect _ _ _ _ _ Hget) as Hg.
  2:{ unfold ret. intros ?; simplify_eq. exists [], 0.
      split; [exact Hg|]. split; [by left|]. split; [lia | discriminate]. }
  pose proof (GetCommand_service _ _ _ _ _ Hget) as Hsvc.
  destruct (Pid command =? 0).
  { unfold ret. intros ?; simplify_eq. exists [], 0.
    split; [exact Hg|]. split; [by left|]. split; [lia | discriminate]. }
  unfold bind at 1.
  destruct (interruptProcess os cfg command w1) as [r2 w2] eqn:Hint.
  apply (interruptProcess_effect _ _ _ (pidPath w c)) in Hint as (s2 & He2 & Hs2).
  pose proof (effect_trans _ _ _ _ _ _ _ _ Hg He2) as H02.
  rewrite app_nil_r in H02. simpl in H02.
  assert (stopSignals s2) as Hsig2.
  { destruct Hs2 as [(pid & ->)|[-> _]]; [right; left; by eexists | by left]. }
  (* the common tail: remove leftover files, report success *)
  assert (forall w3 nap res0,
            effect (pidPath w c) w w3 s2 nap ->
            0 <= nap <= 51 * (100 * Millisecond) ->
            (exists pid, s2 = [CallSendSignal pid SIGINT]) ->
            stopSucceeded command w3 = (res0, w') ->
            exists sent nap,
              effect (pidPath w c) w w' sent nap /\ stopSignals sent /\
              0 <= nap <= 51 * (100 * Millisecond) /\
              (snd res0 = Some TrackSuccess ->
                 false = false /\ fst res0 = None /\
                 (exists pid, sent = [CallSendSignal pid SIGINT]) /\
                 pidfiles w' = delete (pidPath w c) (pidfiles w))) as Hdone.
  { intros w3 nap res0 He3 Hnap Hone Hsucc.
    apply stopSucceeded_effect in Hsucc as (-> & He & Hdel).
    assert (pidPath w3 (Service command) = pidPath w c) as Hpath.
    { unfold pidPath. rewrite Hsvc. do 2 f_equal. apply He3. }
    rewrite Hpath in He, Hdel.
    pose proof (effect_trans _ _ _ _ _ _ _ _ He3 He) as Hall.
    simpl in Hall. rewrite Z.add_0_r in Hall.
    exists s2, nap. split; [exact Hall|]. split; [exact Hsig2|]. split; [lia|].
    intros _. repeat split; [exact Hone|].
    destruct He3 as (_ & _ & _ & [Hp|Hp] & _); rewrite Hdel, Hp;
      [reflexivity | apply delete_delete_eq]. }
  destruct r2 as [stopped|x].
  2:{ unfold ret. intros ?; simplify_eq. exists s2, 0.
      split; [exact H02|]. split; [exact Hsig2|]. split; [lia | discriminate]. }
  destruct Hs2 as [Hone|[_ Hbad]]; [|by contradiction Hbad].
  destruct stopped; simpl.
  { by apply (Hdone w2 0). }
  unfold bind at 1.
  destruct (waitForTerm os command (Second * 5) w2) as [r3 w3] eqn:Hwait.
  apply (waitLoop_effect _ _ (pidPath w c)) in Hwait as (nap & He3 & Hnap).
  change (pollCount (Second * 5)) with 51%nat in Hnap.
  pose proof (effect_trans _ _ _ _ _ _ _ _ H02 He3) as H03. simpl in H03.
  destruct r3 as [stopped|x].
  2:{ unfold ret. intros ?; simplify_eq. exists s2, nap.
      split; [exact H03|]. split; [exact Hsig2|]. split; [lia | discriminate]. }
  destruct stopped; simpl.
  { apply (Hdone w3 nap); [exact H03 | lia | exact Hone]. }
  unfold bind at 1.
  destruct (killProcess os cfg c command w3) as [[b err] w4] eqn:Hkill.
  apply (killProcess_effect _ _ _ _ (pidPath w c)) in Hkill as (s4 & He4 & Hs4).
  pose proof (effect_trans _ _ _ _ _ _ _ _ H03 He4) as H04.
  rewrite Z.add_0_r in H04.
  assert (stopSignals (s4 ++ s2)) as Hsig4.
  { destruct Hone as (pid & ->). destruct Hs4 as [->|(pgid & -> & H0 & H1)].
    - right; left. by eexists.
    - right; right. exists pid, pgid. by repeat split. }
  destruct err as [e|]; [|destruct b]; unfold ret; intros ?; simplify_eq;
    exists (s4 ++ s2), nap;
    (split; [exact H04|]); (split; [exact Hsig4|]); (split; [lia | discriminate]).
Qed.

(** The forceful signals are among the signals sent. *)
Lemma forcefulSent_signalsSent h :
  forcefulSent h =
    List.filter (fun call => isForceful (mkEvent call None)) (signalsSent h).
Proof.
  unfold forcefulSent, signalsSent.
  induction h as [|ev h IH]; simpl; [reflexivity|].
  destruct ev as [call e]. destruct call; simpl; try exact IH.
  - destruct sig; simpl; [exact IH | by rewrite IH].
  - by rewrite IH.
Qed.

(** X1.  A [Stop] that reports success returns no error, has sent exactly
    one interrupt and no other signal, and has deleted the pid record of the
    service. *)
Theorem Stop_reported_success os cfg c w err w' :
  Stop os cfg c w = ((err, Some TrackSuccess), w') ->
  err = None /\
  (exists pid, signalsSent (trace w') = CallSendSignal pid SIGINT :: signalsSent (trace w)) /\
  forcefulSent (trace w') = forcefulSent (trace w) /\
  pidfiles w' !! pidPath w c = None.
Proof.
  intros Hstop.
  destruct (Stop_effect _ _ _ _ _ _ Hstop) as (sent & nap & He & _ & _ & Hok).
  destruct (Hok eq_refl) as (_ & Herr & (pid & ->) & Hdel). simpl in Herr.
  destruct He as (_ & _ & _ & _ & Hsig & _).
  split; [exact Herr|]. split; [by exists pid|]. split.
  - (* the only signal sent is an interrupt *)
    rewrite !forcefulSent_signalsSent, Hsig. reflexivity.
  - rewrite Hdel. apply lookup_delete_eq.
Qed.

Lemma Stop_reported_success_witness :
  let os := simOS [apiProc false false] [] in
  let w := freshWorld {[ apiPidFile := Ok "4242" ]} ∅ in
  let w' := snd (Stop os allIncluded api w) in
  (exists pid, signalsSent (trace w') = CallSendSignal pid SIGINT :: signalsSent (trace w)) /\
  forcefulSent (trace w') = forcefulSent (trace w) /\
  pidfiles w' !! pidPath w api = None.
Proof.
  intros os w w'.
  apply (Stop_reported_success os allIncluded api w None w'). vm_compute. reflexivity.
Defined.

(** X2.  Whatever the system answers, one [Stop] sends at most one
    interrupt, then at most one kill of a process group, and never kills
    process group 0 or 1. *)
Theorem Stop_signal_discipline os cfg c w :
  exists sent,
    signalsSent (trace (snd (Stop os cfg c w))) = sent ++ signalsSent (trace w) /\
    stopSignals sent.
Proof.
  destruct (Stop os cfg c w) as [res w'] eqn:Hstop.
  destruct (Stop_effect _ _ _ _ _ _ Hstop) as (sent & nap & He & Hsig & _).
  exists sent. split; [apply He | exact Hsig].
Qed.

(** X3.  One [Stop] spends at most 5.1 seconds in [time.Sleep]: 51 naps of
    100 milliseconds. *)
Theorem Stop_bounded_wait os cfg c w :
  slept (trace w) <= slept (trace (snd (Stop os cfg c w)))
    <= slept (trace w) + 5100 * Millisecond.
Proof.
  destruct (Stop os cfg c w) as [res w'] eqn:Hstop.
  destruct (Stop_effect _ _ _ _ _ _ Hstop) as (sent & nap & He & _ & Hnap & _).
  destruct He as (_ & _ & _ & _ & _ & Hslept & _). simpl.
  unfold Millisecond in *. lia.
Qed.

(** X4.  [Stop] leaves the run logs, the connection cache and the pid
    records of all other services as they are, fetches no connection table,
    and either keeps or deletes the pid record of its own service. *)
Theorem Stop_touches_own_record_only os cfg c w :
  let w' := snd (Stop os cfg c w) in
  logfiles w' = logfiles w /\
  connectionsCache w' = connectionsCache w /\
  fetches (trace w') = fetches (trace w) /\
  (forall p, p <> pidPath w c -> pidfiles w' !! p = pidfiles w !! p) /\
  (pidfiles w' !! pidPath w c = pidfiles w !! pidPath w c \/
   pidfiles w' !! pidPath w c = None).
Proof.
  destruct (Stop os cfg c w) as [res w'] eqn:Hstop. simpl.
  destruct (Stop_effect _ _ _ _ _ _ Hstop)
    as (sent & nap & (_ & Hl & Hc & Hp & _ & _ & Hf) & _).
  repeat split; try assumption.
  - intros p Hne. destruct Hp as [->| ->]; [reflexivity|].
    by apply lookup_delete_ne.
  - destruct Hp as [->| ->]; [by left | right; apply lookup_delete_eq].
Qed.

(** X5.  After a [Stop] that reported success the service is stopped for
    the tool: a second [Stop] reports "Not running" and [Status] reports
    Stopped, and neither changes anything or calls the system. *)
Theorem Stop_then_stopped os cfg c w err w' :
  Stop os cfg c w = ((err, Some TrackSuccess), w') ->
  Stop os cfg c w' = ((None, Some (TrackSoftFail (errorsNew "Not running"))), w') /\
  Status os c w' = (Ok [stoppedStatus c], w').
Proof.
  intros Hstop.
  destruct (Stop_effect _ _ _ _ _ _ Hstop) as (sent & nap & He & _ & _ & Hok).
  destruct (Hok eq_refl) as (Hex & _ & _ & Hdel).
  assert (pidfiles w' !! pathJoin (PidDir (home w')) (Name c +:+ ".pid") = None)
    as Hnone.
  { destruct He as (-> & _). rewrite Hdel. apply lookup_delete_eq. }
  split; [|by apply Status_no_record].
  unfold Stop. rewrite Hex. unfold bind.
  by rewrite (GetCommand_no_record _ _ _ Hnone).
Qed.

Lemma Stop_then_stopped_witness :
  let os := simOS [apiProc false false] [] in
  let w' := snd (Stop os allIncluded api (freshWorld {[ apiPidFile := Ok "4242" ]} ∅)) in
  Stop os allIncluded api w'
    = ((None, Some (TrackSoftFail (errorsNew "Not running"))), w') /\
  Status os api w' = (Ok [stoppedStatus api], w').
Proof.
  intros os w'.
  apply (Stop_then_stopped os allIncluded api
           (freshWorld {[ apiPidFile := Ok "4242" ]} ∅) None w').
  vm_compute. reflexivity.
Defined.

(** ** [waitForTerm] *)

Lemma timedOut_snoc pid n :
  timedOut pid n ++ [mkEvent (CallSleep (100 * Millisecond)) None;
                     mkEvent (CallPidExists pid) None]
  = mkEvent (CallSleep (100 * Millisecond)) None
      :: mkEvent (CallPidExists pid) None :: timedOut pid n.
Proof. induction n as [|n IH]; simpl; [reflexivity | by rewrite IH]. Qed.

Lemma slept_timedOut pid n h :
  slept (timedOut pid n ++ h) = Z.of_nat n * (100 * Millisecond) + slept h.
Proof. induction n as [|n IH]; simpl slept; [lia | rewrite IH; lia]. Qed.

Lemma waitLoop_timeout os command timeout fuel : forall elapsed w w',
  (forall k, (k < fuel)%nat ->
             elapsed + Z.of_nat k * (100 * Millisecond) <= timeout) ->
  waitLoop os command timeout fuel elapsed w = (Ok false, w') ->
  trace w' = timedOut (int32 (Pid command)) fuel ++ trace w /\
  forall k, (k < fuel)%nat ->
    osPidExists os (timedOut (int32 (Pid command)) k ++ trace w)
      (int32 (Pid command)) = Ok true.
Proof.
  induction fuel as [|fuel IH]; intros elapsed w w' Hin H; simpl in H.
  - unfold ret in H. simplify_eq. split; [reflexivity | intros k Hk; lia].
  - assert (elapsed <= timeout) as Hle by (specialize (Hin O); lia).
    apply Z.leb_le in Hle. rewrite Hle in H.
    unfold try, PidExists, oscall in H. simpl in H.
    destruct (osPidExists os (trace w) (int32 (Pid command))) as [[]|e] eqn:Hpoll;
      simpl in H; [|discriminate..].
    unfold bind, Sleep, record in H. simpl in H.
    apply IH in H as [Htr Hpolls].
    2:{ intros k Hk. specialize (Hin (S k)). lia. }
    simpl in Htr, Hpolls. split.
    + rewrite Htr. simpl.
      change (?a :: ?b :: trace w) with ([a; b] ++ trace w).
      by rewrite app_assoc, timedOut_snoc.
    + intros [|k] Hk; [exact Hpoll|]. simpl.
      specialize (Hpolls k ltac:(lia)).
      change (?a :: ?b :: trace w) with ([a; b] ++ trace w) in Hpolls.
      by rewrite app_assoc, timedOut_snoc in Hpolls.
Qed.

(** X6.  [waitForTerm] answers "not stopped" only after it has polled the
    process [pollCount timeout] times (51 times for the 5 seconds of [Stop]),
    found it alive each time and napped 100 milliseconds after each poll. *)
Theorem waitForTerm_timeout os command timeout w w' :
  waitForTerm os command timeout w = (Ok false, w') ->
  trace w' = timedOut (int32 (Pid command)) (pollCount timeout) ++ trace w /\
  (forall k, (k < pollCount timeout)%nat ->
     osPidExists os (timedOut (int32 (Pid command)) k ++ trace w)
       (int32 (Pid command)) = Ok true) /\
  slept (trace w') =
    slept (trace w) + Z.of_nat (pollCount timeout) * (100 * Millisecond).
Proof.
  intros H. apply waitLoop_timeout in H as [Htr Hpolls].
  - repeat split; [exact Htr | exact Hpolls|]. rewrite Htr, slept_timedOut. lia.
  - intros k Hk. apply pollCount_enter in Hk. lia.
Qed.

Lemma waitForTerm_timeout_witness :
  let os := simOS [apiProc true false] [] in
  let w := freshWorld {[ apiPidFile := Ok "4242" ]} ∅ in
  let w' := snd (waitForTerm os (mkServiceCommand api 4242) (Second * 5) w) in
  trace w' = timedOut 4242 51 ++ trace w /\
  slept (trace w') = 5100 * Millisecond.
Proof.
  intros os w w'.
  destruct (waitForTerm_timeout os (mkServiceCommand api 4242) (Second * 5) w w')
    as (Htr & _ & Hslept); [vm_compute; reflexivity|].
  split; [exact Htr | exact Hslept].
Defined.

(** With a negative timeout [waitForTerm] gives up at once, without a poll. *)
Lemma waitForTerm_negative os command timeout w :
  timeout < 0 -> waitForTerm os command timeout w = (Ok false, w).
Proof.
  intros Hneg. unfold waitForTerm, pollCount.
  destruct (Z.ltb_spec timeout 0); [reflexivity | lia].
Qed.

(** ** [GetCommand] *)

(** X7.  [GetCommand] answers a pid other than 0 only for an identity it has
    just validated: the pid record holds that pid, the system reported a
    live process for it, and the command line of that process contains the
    service's name.  The pid records are left as they were. *)
Theorem GetCommand_validated os c w command w' :
  GetCommand os c w = (Ok command, w') ->
  Pid command <> 0 ->
  exists dat proc cmdline,
    let pid := int32 (Pid command) in
    let ev1 := mkEvent (CallPidExists pid) None in
    let ev2 := mkEvent (CallNewProcess pid) None in
    pidfiles w !! pidPath w c = Some (Ok dat) /\
    Atoi dat = Ok (Pid command) /\
    osPidExists os (trace w) pid = Ok true /\
    osNewProcess os (ev1 :: trace w) pid = Ok proc /\
    osCmdline os (ev2 :: ev1 :: trace w) (procPid proc) = Ok cmdline /\
    Contains cmdline (Name c) = true /\
    Service command = c /\
    pidfiles w' = pidfiles w.
Proof.
  unfold GetCommand, pidPath. unfold_calls. intros H Hpid.
  repeat (case_match; simplify_eq/=); try by contradiction Hpid.
  eexists _, _, _. repeat split; try eassumption.
  - match goal with Hx : osPidExists _ _ _ = Ok ?b, Hb : negb ?b = false |- _ =>
      destruct b; [exact Hx | discriminate Hb] end.
  - match goal with Hb : negb (Contains _ _) = false |- _ =>
      by apply negb_false_iff in Hb end.
Qed.

Lemma GetCommand_validated_witness :
  exists dat proc cmdline,
    pidfiles (freshWorld {[ apiPidFile := Ok "4242" ]} ∅) !! apiPidFile = Some (Ok dat) /\
    Atoi dat = Ok 4242 /\
    osNewProcess (simOS [apiProc true false] [])
      [mkEvent (CallPidExists 4242) None] 4242 = Ok proc /\
    osCmdline (simOS [apiProc true false] [])
      [mkEvent (CallNewProcess 4242) None; mkEvent (CallPidExists 4242) None]
      (procPid proc) = Ok cmdline /\
    Contains cmdline "api" = true.
Proof.
  pose (os := simOS [apiProc true false] []).
  pose (w := freshWorld {[ apiPidFile := Ok "4242" ]} ∅).
  destruct (GetCommand_validated os api w (mkServiceCommand api 4242)
              (snd (GetCommand os api w)))
    as (dat & proc & cmdline & Hfile & Hatoi & _ & Hnew & Hcmd & Hname & _);
    [vm_compute; reflexivity | discriminate |].
  exists dat, proc, cmdline. repeat split; assumption.
Defined.

(** X8.  A pid record that is not the decimal text of an integer makes
    [GetCommand] fail, and with it [Status], [Stop], [Build], [Launch] and
    [Start] of a service that is not excluded; none of them calls the system,
    runs a command or changes anything, so the failure repeats until the
    record is replaced. *)
Theorem corrupt_pid_record os ops cfg c w dat e :
  pidfiles w !! pidPath w c = Some (Ok dat) ->
  Atoi dat = Err e ->
  IsExcluded cfg c = false ->
  GetCommand os c w = (Err (WithStack e), w) /\
  Status os c w = (Err (WithStack (WithStack e)), w) /\
  Stop os cfg c w = ((Some (WithStack (WithStack e)), None), w) /\
  Build os ops cfg c w = (Some (WithStack (WithStack e)), w) /\
  Launch os ops cfg c w = (Some (WithStack (WithStack e)), w) /\
  Start os ops cfg c w = (Some (WithStack (WithStack (WithStack e))), w).
Proof.
  intros Hfile Hatoi Hex.
  assert (GetCommand os c w = (Err (WithStack e), w)) as Hget.
  { unfold GetCommand, pidPath in *. unfold_calls. simpl.
    rewrite Hfile. simpl. by rewrite Hatoi. }
  split; [exact Hget|].
  unfold Start, Status, Stop, Build, Launch, try, bind, ret. rewrite Hex, Hget.
  by repeat split.
Qed.

Lemma corrupt_pid_record_witness :
  let os := simOS [apiProc true false] [] in
  let w := freshWorld {[ apiPidFile := Ok "4242 " ]} ∅ in
  GetCommand os api w = (Err (WithStack ErrSyntax), w) /\
  Status os api w = (Err (WithStack (WithStack ErrSyntax)), w) /\
  Stop os allIncluded api w = ((Some (WithStack (WithStack ErrSyntax)), None), w) /\
  Build os failingOps allIncluded api w = (Some (WithStack (WithStack ErrSyntax)), w) /\
  Launch os failingOps allIncluded api w = (Some (WithStack (WithStack ErrSyntax)), w) /\
  Start os failingOps allIncluded api w
    = (Some (WithStack (WithStack (WithStack ErrSyntax))), w).
Proof.
  intros os w.
  apply (corrupt_pid_record os failingOps allIncluded api w "4242 " ErrSyntax);
    reflexivity.
Defined.

(** ** Port discovery on any system *)

Section Discovery.
Context (os : OS) (c : ServiceConfig).

Lemma discovers_refl w : discovers w w.
Proof. repeat split. apply hext_refl. Qed.

Lemma discovers_trans w1 w2 w3 : discovers w1 w2 -> discovers w2 w3 -> discovers w1 w3.
Proof.
  intros (? & ? & ? & H12) (? & ? & ? & H23).
  repeat split; try congruence. by eapply hext_trans.
Qed.

Lemma fetchConnections_discovers w err w1 :
  fetchConnections os w = (err, w1) -> discovers w w1.
Proof.
  unfold fetchConnections. destruct (length (connectionsCache w) =? 0)%nat.
  - destruct (osConnections os (trace w)) as [table e]. intros ?; simplify_eq.
    repeat split. simpl. apply hext_cons; [reflexivity | apply hext_refl].
  - intros ?; simplify_eq. apply discovers_refl.
Qed.

Lemma ownPorts_undeclared pid table : Forall (undeclared c) (ownPorts (knownPorts c) pid table []).
Proof.
  apply Forall_forall. intros s (port & _ & Hk & ->)%list_elem_of_In%In_ownPorts.
  exists port. split; [reflexivity|]. by rewrite <- elem_of_knownPorts.
Qed.

(** The loop over the children never fails, whatever discovery on a child
    does. *)
Lemma forEachChild_inv discover cs : forall ports w r w',
  Forall (fun child => forall w r w', discover child w = (r, w') ->
            discovers w w' /\ forall found, r = Ok found -> Forall (undeclared c) found) cs ->
  Forall (undeclared c) ports ->
  forEachChild discover cs ports w = (r, w') ->
  discovers w w' /\ exists found, r = Ok found /\ Forall (undeclared c) found.
Proof.
  induction cs as [|child cs IH]; intros ports w r w' Hall Hports H; simpl in H.
  - simplify_eq. split; [apply discovers_refl | by exists ports].
  - inversion Hall as [|? ? Hchild Hrest]; subst.
    destruct (discover child w) as [[childPorts|x] w1] eqn:Hd;
      apply Hchild in Hd as [Hw1 Hfound]; apply IH in H as [Hw' Hr]; auto.
    + split; [by eapply discovers_trans | exact Hr].
    + apply Forall_app. split; [exact Hports | by apply Hfound].
    + split; [by eapply discovers_trans | exact Hr].
Qed.

Lemma doGetPorts_inv proc : forall w r w',
  doGetPorts os c proc w = (r, w') ->
  discovers w w' /\
  match r with
  | Ok found =>
      Forall (undeclared c) found /\ exists w1, fetchConnections os w = (None, w1)
  | Err x => exists e, x = WithStack e /\ fetchConnections os w = (Some e, w')
  end.
Proof.
  induction proc as [pid e0|pid cs IH] using Process_tree_ind; intros w r w' H;
    simpl in H; destruct (fetchConnections os w) as [[e|] w1] eqn:Hfetch;
    pose proof (fetchConnections_discovers _ _ _ Hfetch) as Hd; simplify_eq.
  - split; [exact Hd | by exists e].
  - split; [exact Hd|]. split; [apply ownPorts_undeclared | by exists w'].
  - split; [exact Hd | by exists e].
  - apply forEachChild_inv in H as [Hd' (found & -> & Hfound)].
    + split; [by eapply discovers_trans|]. split; [exact Hfound | by exists w1].
    + eapply Forall_impl; [exact IH|]. intros child Hchild w0 r0 w0' H0.
      apply Hchild in H0 as [? Hr]. split; [assumption|].
      intros found ->. apply Hr.
    + apply ownPorts_undeclared.
Qed.

End Discovery.

(** X9.  Port discovery fails exactly when the fetch of the connection table
    made for the inspected process itself fails; that a child's discovery
    fails, or that the children cannot be listed, never fails it. *)
Theorem doGetPorts_fails_only_at_root os c proc w x w' :
  doGetPorts os c proc w = (Err x, w') <->
  exists e, x = WithStack e /\ fetchConnections os w = (Some e, w').
Proof.
  split.
  - intros H. by apply doGetPorts_inv in H as [_ H].
  - intros (e & -> & Hfetch). destruct proc as [pid ch]. simpl. by rewrite Hfetch.
Qed.

(** X10.  On any system, the ports [getPorts] returns are ports found by
    discovery, none of them a declared launch-check port, followed by every
    declared port in the order of the declaration. *)
Theorem getPorts_declared_last os c proc w ports w' :
  getPorts os c proc w = (Ok ports, w') ->
  exists found,
    ports = found ++ map Itoa (declared c) /\
    Forall (undeclared c) found.
Proof.
  intros (found & Hfound & ->)%getPorts_inv.
  apply doGetPorts_inv in Hfound as [_ [Hall _]].
  exists found. by rewrite declaredPorts_declared.
Qed.

Lemma getPorts_declared_last_witness :
  exists found,
    ["9090"; "9091"; "8080"] = found ++ map Itoa (declared api) /\
    Forall (undeclared api) found.
Proof.
  pose (os := simOS [apiSupervisor] workersTable).
  pose (w := freshWorld {[ apiPidFile := Ok "100" ]} ∅).
  apply (getPorts_declared_last os api apiTree w ["9090"; "9091"; "8080"]
           (snd (getPorts os api apiTree w))).
  vm_compute. reflexivity.
Defined.

(** ** [Status] on any system *)

Lemma lookup_calls os w :
  (forall pid r w', NewProcess os pid w = (r, w') ->
     home w' = home w /\ pidfiles w' = pidfiles w /\ logfiles w' = logfiles w /\
     signalsSent (trace w') = signalsSent (trace w) /\ slept (trace w') = slept (trace w)) /\
  (forall p r w', CreateTime os p w = (r, w') ->
     home w' = home w /\ pidfiles w' = pidfiles w /\ logfiles w' = logfiles w /\
     signalsSent (trace w') = signalsSent (trace w) /\ slept (trace w') = slept (trace w)).
Proof. split; unfold_calls; intros; simplify_eq/=; by repeat split. Qed.

Lemma discovers_silent w w' :
  discovers w w' ->
  signalsSent (trace w') = signalsSent (trace w) /\ slept (trace w') = slept (trace w).
Proof.
  intros (_ & _ & _ & evs & -> & Hall). unfold signalsSent.
  induction Hall as [|[call e] evs Hev _ [IH1 IH2]]; [by split|].
  simpl in Hev. subst call. simpl. by split.
Qed.

Lemma Status_effect os c w r w' :
  Status os c w = (r, w') ->
  signalsSent (trace w') = signalsSent (trace w) /\
  slept (trace w') = slept (trace w) /\
  logfiles w' = logfiles w /\
  (pidfiles w' = pidfiles w \/ pidfiles w' = delete (pidPath w c) (pidfiles w)).
Proof.
  unfold Status. unfold try at 1.
  destruct (GetCommand os c w) as [[command|x] w1] eqn:Hget;
    apply GetCommand_effect in Hget as (Hh1 & Hl1 & _ & Hp1 & Hs1 & Hn1 & _);
    simpl in Hs1; rewrite Z.add_0_r in Hn1.
  2:{ intros ?; by simplify_eq. }
  destruct (Pid command =? 0); simpl.
  { unfold ret. intros ?; by simplify_eq. }
  unfold try at 1.
  destruct (NewProcess os (int32 (Pid command)) w1) as [[proc|x] w2] eqn:Hnew;
    apply (proj1 (lookup_calls os w1)) in Hnew as (Hh2 & Hp2 & Hl2 & Hs2 & Hn2).
  2:{ intros ?; simplify_eq. repeat split; congruence. }
  unfold try at 1.
  destruct (CreateTime os proc w2) as [[t|x] w3] eqn:Htime;
    apply (proj2 (lookup_calls os w2)) in Htime as (Hh3 & Hp3 & Hl3 & Hs3 & Hn3).
  2:{ intros ?; simplify_eq. repeat split; congruence. }
  unfold bind at 1, getPorts, try.
  destruct (doGetPorts os c proc w3) as [r4 w4] eqn:Hports.
  apply doGetPorts_inv in Hports as [Hd _].
  pose proof (discovers_silent _ _ Hd) as [Hs4 Hn4].
  destruct Hd as (Hh4 & Hp4 & Hl4 & _).
  pose proof (getLogCounts_world os c w4) as Hw.
  unfold bind, ret.
  destruct r4 as [found|x]; destruct (getLogCounts os c w4) as [counts w5];
    simpl in Hw; subst w5; intros ?; simplify_eq;
    (repeat split; [congruence..|]); rewrite Hp4, Hp3, Hp2; exact Hp1.
Qed.

(** X11.  [Status] only looks: whatever the system answers, it sends no
    signal, never sleeps, leaves the run logs and the pid records of all
    other services as they are, and either keeps or deletes the pid record of
    its own service. *)
Theorem Status_only_looks os c w :
  let w' := snd (Status os c w) in
  signalsSent (trace w') = signalsSent (trace w) /\
  slept (trace w') = slept (trace w) /\
  logfiles w' = logfiles w /\
  (forall p, p <> pidPath w c -> pidfiles w' !! p = pidfiles w !! p) /\
  (pidfiles w' !! pidPath w c = pidfiles w !! pidPath w c \/
   pidfiles w' !! pidPath w c = None).
Proof.
  destruct (Status os c w) as [r w'] eqn:Hstatus. simpl.
  apply Status_effect in Hstatus as (Hs & Hn & Hl & Hp).
  repeat split; try assumption.
  - intros p Hne. destruct Hp as [->| ->]; [reflexivity | by apply lookup_delete_ne].
  - destruct Hp as [->| ->]; [by left | right; apply lookup_delete_eq].
Qed.

(** ** Log line counts *)

Lemma int64_small x : - 2 ^ 63 <= x < 2 ^ 63 -> int64 x = x.
Proof. intros H. unfold int64. rewrite Z.mod_small; lia. Qed.

Lemma countLine_step os st text (n : Z) :
  0 <= st.1.1 -> 0 <= st.1.2 -> st.1.1 + st.1.2 <= n -> n + 1 < 2 ^ 63 ->
  let st' := countLine os st text in
  0 <= st'.1.1 /\ 0 <= st'.1.2 /\ st'.1.1 + st'.1.2 <= n + 1.
Proof.
  destruct st as [[so se] ld]. simpl. intros Hso Hse Hsum Hn.
  destruct (jsonUnmarshal os text ld) as [ld' [e|]]; simpl; [lia|].
  destruct (String.eqb_spec ld' "stdout") as [->|_]; simpl.
  - rewrite int64_small by lia. lia.
  - destruct (String.eqb ld' "stderr"); simpl; [rewrite int64_small by lia|]; lia.
Qed.

Lemma countLines_bound os lines : forall st (n : Z),
  0 <= st.1.1 -> 0 <= st.1.2 -> st.1.1 + st.1.2 <= n ->
  n + Z.of_nat (length lines) < 2 ^ 63 ->
  let st' := fold_left (countLine os) lines st in
  0 <= st'.1.1 /\ 0 <= st'.1.2 /\ st'.1.1 + st'.1.2 <= n + Z.of_nat (length lines).
Proof.
  induction lines as [|text lines IH]; intros st n Hso Hse Hsum Hn; simpl.
  - simpl in Hn. lia.
  - simpl length in *.
    destruct (countLine_step os st text n) as (H1 & H2 & H3); try lia.
    specialize (IH (countLine os st text) (n + 1) H1 H2 H3 ltac:(lia)).
    simpl in IH. replace (n + Z.of_nat (S (length lines)))
      with (n + 1 + Z.of_nat (length lines)) by lia. exact IH.
Qed.

(** X12.  The two counts of [getLogCounts] are not negative and together do
    not exceed the number of lines of the run log: a line is counted at most
    once. *)
Theorem getLogCounts_bound os c w lines :
  logfiles w !! pathJoin (LogDir (home w)) (Name c +:+ ".log") = Some lines ->
  Z.of_nat (length lines) < 2 ^ 63 ->
  let counts := fst (getLogCounts os c w) in
  0 <= counts.1 /\ 0 <= counts.2 /\ counts.1 + counts.2 <= Z.of_nat (length lines).
Proof.
  intros Hlog Hlen. unfold getLogCounts. unfold_calls. simpl. rewrite Hlog.
  pose proof (countLines_bound os lines (0, 0, "") 0) as H. simpl in H.
  destruct (fold_left (countLine os) lines (0, 0, "")) as [[so se] ld].
  simpl in *. apply H; lia.
Qed.

Lemma getLogCounts_bound_witness :
  let counts :=
    fst (getLogCounts (simOS [] []) api (freshWorld ∅ {[ apiLogFile := apiLog ]})) in
  counts = (2, 1) /\
  0 <= counts.1 /\ 0 <= counts.2 /\ counts.1 + counts.2 <= 4.
Proof.
  split; [vm_compute; reflexivity|].
  apply (getLogCounts_bound (simOS [] []) api
           (freshWorld ∅ {[ apiLogFile := apiLog ]}) apiLog);
    [vm_compute; reflexivity | vm_compute; reflexivity].
Defined.

(** ** Loading a service *)

Lemma validate_exclusive c :
  validate c = None <->
  forall lc, LaunchChecks c = Some lc -> LogText lc = "" \/ Ports lc = [].
Proof.
  unfold validate. destruct (LaunchChecks c) as [lc|]; [|split; [intros _ ?; discriminate | reflexivity]].
  destruct (LogText lc) as [|a s] eqn:Htext, (Ports lc) as [|port ports] eqn:Hports;
    simpl; split; try reflexivity; try discriminate.
  all: try (intros _ lc' [= <-]; rewrite ?Htext, ?Hports; auto).
  intros H. destruct (H lc eq_refl) as [Hl|Hp]; [rewrite Htext in Hl | rewrite Hports in Hp];
    discriminate.
Qed.

(** X13.  A service that [UnmarshalJSON] accepts never has both a log launch
    check and a port launch check. *)
Theorem UnmarshalJSON_accepts_exclusive decode c data c' :
  UnmarshalJSON decode c data = (c', None) ->
  forall lc, LaunchChecks c' = Some lc -> LogText lc = "" \/ Ports lc = [].
Proof.
  unfold UnmarshalJSON. destruct (decode data c) as [[properties c0] [e|]];
    [discriminate|].
  match goal with |- context [validate ?x] => set (c1 := x) end.
  destruct (validate c1) as [e|] eqn:Hv; simpl; [discriminate|].
  intros [= <-]. by apply validate_exclusive.
Qed.

Lemma UnmarshalJSON_accepts_exclusive_witness :
  LogText (mkLaunchChecks "Listening" []) = "" \/ Ports (mkLaunchChecks "Listening" []) = [].
Proof.
  apply (UnmarshalJSON_accepts_exclusive sampleDecode web "legacy"
           (mkServiceConfig "web" false (Some (mkLaunchChecks "Listening" [])))).
  - reflexivity.
  - reflexivity.
Defined.

(** X14.  When the data has a legacy [log_properties] block, its [started]
    text replaces the log text of the launch checks, even when it is empty,
    and the declared ports are kept; the service is then rejected exactly
    when that text is not empty and ports are declared. *)
Theorem UnmarshalJSON_legacy decode c data auxProperties c0 :
  decode data c = (Some auxProperties, c0, None) ->
  let c' := fst (UnmarshalJSON decode c data) in
  LaunchChecks c' = Some (mkLaunchChecks (Started auxProperties) (declared c0)) /\
  Name c' = Name c0 /\ RequiresSudo c' = RequiresSudo c0 /\
  (snd (UnmarshalJSON decode c data) = None <->
     Started auxProperties = "" \/ declared c0 = []).
Proof.
  intros Hdec. unfold UnmarshalJSON. rewrite Hdec. simpl.
  match goal with |- context [validate ?x] => set (c1 := x) end.
  assert (LaunchChecks c1 = Some (mkLaunchChecks (Started auxProperties) (declared c0)))
    as Hlc.
  { unfold c1, declared. by destruct (LaunchChecks c0). }
  repeat split; try (unfold c1; by destruct (LaunchChecks c0)); try exact Hlc.
  - intros Hnone. destruct (validate c1) as [e|] eqn:Hv; [discriminate|].
    apply (proj1 (validate_exclusive c1)) with (lc := mkLaunchChecks (Started auxProperties) (declared c0)) in Hv;
      [exact Hv | exact Hlc].
  - intros Hex. assert (validate c1 = None) as ->; [|reflexivity].
    apply validate_exclusive. intros lc. rewrite Hlc. by intros [= <-].
Qed.

Lemma UnmarshalJSON_legacy_witness :
  LaunchChecks (fst (UnmarshalJSON sampleDecode api "legacy"))
    = Some (mkLaunchChecks "Listening" [8080]) /\
  snd (UnmarshalJSON sampleDecode api "legacy")
    = Some (Plain (WithStack (errorsNew "cannot specify both a log and port launch check"))).
Proof.
  split.
  - apply (UnmarshalJSON_legacy sampleDecode api "legacy"
             (mkServiceConfigProperties "Listening") api). reflexivity.
  - reflexivity.
Defined.

(** ** The cost of port discovery *)

Section FetchBound.
Context (os : OS) (c : ServiceConfig).

Lemma fetchConnections_count w err w1 :
  fetchConnections os w = (err, w1) ->
  (length (fetches (trace w1)) <= length (fetches (trace w)) + 1)%nat.
Proof.
  unfold fetchConnections. destruct (length (connectionsCache w) =? 0)%nat.
  - destruct (osConnections os (trace w)) as [table e]. intros ?; simplify_eq.
    simpl. lia.
  - intros ?; simplify_eq. lia.
Qed.

Lemma forEachChild_count discover cs : forall ports w r w',
  Forall (fun child => forall w r w', discover child w = (r, w') ->
            (length (fetches (trace w'))
             <= length (fetches (trace w)) + length (treePids child))%nat) cs ->
  forEachChild discover cs ports w = (r, w') ->
  (length (fetches (trace w'))
   <= length (fetches (trace w)) + length (flat_map treePids cs))%nat.
Proof.
  induction cs as [|child cs IH]; intros ports w r w' Hall H; simpl in H.
  - simplify_eq. simpl. lia.
  - inversion Hall as [|? ? Hchild Hrest]; subst.
    simpl. rewrite length_app.
    destruct (discover child w) as [[childPorts|x] w1] eqn:Hd;
      apply Hchild in Hd; apply IH in H; auto; lia.
Qed.

Lemma doGetPorts_count proc : forall w r w',
  doGetPorts os c proc w = (r, w') ->
  (length (fetches (trace w'))
   <= length (fetches (trace w)) + length (treePids proc))%nat.
Proof.
  induction proc as [pid e0|pid cs IH] using Process_tree_ind; intros w r w' H;
    simpl in H; destruct (fetchConnections os w) as [[e|] w1] eqn:Hfetch;
    apply fetchConnections_count in Hfetch; simplify_eq; simpl; try lia.
  apply forEachChild_count in H; [lia | exact IH].
Qed.

End FetchBound.

(** X15.  One port discovery fetches the system-wide connection table at
    most once for each process it visits (the inspected process and the
    descendants its [Children()] list), whatever the system answers. *)
Theorem doGetPorts_fetch_bound os c proc w :
  (length (fetches (trace (snd (doGetPorts os c proc w))))
   <= length (fetches (trace w)) + length (treePids proc))%nat.
Proof.
  destruct (doGetPorts os c proc w) as [r w'] eqn:H. simpl.
  by eapply doGetPorts_count.
Qed.

(** The bound is reached: on a system without any socket every visited
    process causes a fetch. *)
Lemma doGetPorts_fetches_per_process :
  length (fetches (trace (snd (doGetPorts (simOS [apiSupervisor] []) api apiTree
                                 (freshWorld ∅ ∅))))) = 3%nat.
Proof. vm_compute. reflexivity. Qed.
